(** * Verification of the donation payment backend ([app.py])

    The program is a small Flask application with two JSON routes that
    forward donation payments to the Stripe API.  Its pure core is
    - [_parse_amount_to_cents]: decimal string to integer cents,
    - [_format_amount_from_cents]: integer cents to a display string,
    - [_status_from_card_error]: decline code to a status label,
    and two handlers, [create_payment_intent] and [confirm_payment_intent].

    The amount functions are written with Python's [decimal] module under
    its default context (precision 28, ROUND_HALF_EVEN, Emax = 999999,
    Emin = -999999, traps on InvalidOperation, DivisionByZero and
    Overflow).  Module [PyDecimal] models the operations of that module
    which the program calls: construction from a string, [quantize],
    comparison, multiplication, true division, [int()] and the [".2f"]
    format.  A coefficient, which the Python implementation keeps as a
    string of digits, is kept here as the natural number it denotes; a
    slice of that string becomes a quotient or a remainder by a power of
    ten, and [ndigits] is its length.

    Construction from a string is exact.  As in CPython's implementation
    of the module, a finite number is refused (InvalidOperation) when it
    cannot be held exactly within the module's widest limits: when its
    adjusted exponent exceeds MAX_EMAX = 999999999999999999 or its
    exponent is below MIN_ETINY = -1999999999999999997.

    Strings are sequences of code points below 256.  The request body is
    the documented one: a JSON object whose fields, when present, are
    strings; an absent field (or JSON null) is [None]. *)

From Stdlib Require Import ZArith NArith QArith Qround Qpower Bool String Ascii List Lia Lqa.
Import ListNotations.

Local Open Scope Z_scope.

(** ** Python exceptions and fallible computations *)

Inductive exn : Type :=
| ValueError (msg : string)
| TypeError
| InvalidOperation      (* decimal.InvalidOperation *)
| DivisionByZero        (* decimal.DivisionByZero *)
| Overflow              (* decimal.Overflow *)
| OverflowError.        (* int() of an infinity *)

Inductive result (A : Type) : Type :=
| Ok (a : A)
| Raise (e : exn).

Arguments Ok {A} a.
Arguments Raise {A} e.

Definition bind {A B : Type} (r : result A) (k : A -> result B) : result B :=
  match r with
  | Ok a => k a
  | Raise e => Raise e
  end.

Notation "x <- r ;; k" := (bind r (fun x => k))
  (at level 61, r at next level, right associativity).

(** ** Characters and digit strings *)

Module Chars.

Definition ord (c : ascii) : N := N_of_ascii c.

Definition is_digit (c : ascii) : bool :=
  ((48 <=? ord c) && (ord c <=? 57))%N.

Definition digit_val (c : ascii) : N := (ord c - 48)%N.

(** The characters that [str.strip()] removes, among code points < 256. *)
Definition is_space (c : ascii) : bool :=
  let n := ord c in
  (((9 <=? n) && (n <=? 13)) || ((28 <=? n) && (n <=? 32))
   || (n =? 133) || (n =? 160))%N.

(** Case folding of an ASCII letter, as [re.IGNORECASE] compares. *)
Definition lower (c : ascii) : ascii :=
  let n := ord c in
  if ((65 <=? n) && (n <=? 90))%N then ascii_of_N (n + 32) else c.

Fixpoint lstrip (l : list ascii) : list ascii :=
  match l with
  | c :: r => if is_space c then lstrip r else l
  | [] => []
  end.

Definition rstrip (l : list ascii) : list ascii := rev (lstrip (rev l)).

Definition strip (l : list ascii) : list ascii := rstrip (lstrip l).

Definition remove_underscores (l : list ascii) : list ascii :=
  filter (fun c => negb (Ascii.eqb c "_")) l.

(** Longest prefix of digits and what follows it: the match of [\d*]. *)
Fixpoint span_digits (l : list ascii) : list ascii * list ascii :=
  match l with
  | c :: r =>
      if is_digit c
      then let '(ds, rest) := span_digits r in (c :: ds, rest)
      else ([], l)
  | [] => ([], [])
  end.

(** [int(ds)] for a string of digits; the empty string gives 0 here and
    is excluded by the callers where Python would reject it. *)
Definition digits_to_N (ds : list ascii) : N :=
  fold_left (fun acc d => (10 * acc + digit_val d)%N) ds 0%N.

Definition digit_char (d : N) : ascii := ascii_of_N (48 + d).

(** [str(n)] for a natural number, most significant digit first. *)
Fixpoint str_fuel (fuel : nat) (n : N) : list ascii :=
  match fuel with
  | O => [digit_char (n mod 10)]
  | S f =>
      if (n <? 10)%N then [digit_char n]
      else str_fuel f (n / 10) ++ [digit_char (n mod 10)]
  end.

Definition str (n : N) : list ascii := str_fuel (N.to_nat (N.log2 n)) n.

Definition zeros (k : nat) : list ascii := repeat "0"%char k.

End Chars.

(** ** The [decimal] module under its default context *)

Module PyDecimal.
Import Chars.

Inductive Decimal : Type :=
| Finite (sign : bool) (coeff : N) (exp : Z)   (* (-1)^sign * coeff * 10^exp *)
| Infinity (sign : bool)
| NaN (sign : bool) (signaling : bool) (diag : N).

(** [len(self._int)] *)
Definition ndigits (c : N) : Z := Z.of_nat (length (str c)).

(** [self.adjusted()] of a finite number *)
Definition adjusted (c : N) (e : Z) : Z := e + ndigits c - 1.

(** The limits of the module itself, wider than those of any context. *)
Definition MAX_EMAX : Z := 999999999999999999.
Definition MIN_ETINY : Z := -1999999999999999997.

(** *** Construction from a string

    [Decimal(value)] strips surrounding whitespace, deletes every
    underscore, and matches the rest, ignoring case, against

      [-+]? ( (?=\d|\.\d) \d* (\.\d* )? (E[-+]?\d+)?  |  Inf(inity)?  |  s?NaN\d* ) *)

Definition split_sign (l : list ascii) : bool * list ascii :=
  match l with
  | "-"%char :: r => (true, r)
  | "+"%char :: r => (false, r)
  | _ => (false, l)
  end.

(** The lookahead [(?=\d|\.\d)]. *)
Definition starts_number (l : list ascii) : bool :=
  match l with
  | c :: r =>
      is_digit c ||
      (Ascii.eqb c "." && match r with d :: _ => is_digit d | [] => false end)
  | [] => false
  end.

(** [[-+]?\d+] up to the end of the string. *)
Definition parse_exponent (l : list ascii) : option Z :=
  let '(neg, r) := split_sign l in
  let '(ds, rest) := span_digits r in
  match ds, rest with
  | _ :: _, [] =>
      let n := Z.of_N (digits_to_N ds) in Some (if neg then - n else n)
  | _, _ => None
  end.

Definition parse_finite (sign : bool) (l : list ascii) : option Decimal :=
  if starts_number l then
    let '(intpart, r1) := span_digits l in
    let '(fracpart, r2) :=
      match r1 with
      | "."%char :: r => span_digits r
      | _ => ([], r1)
      end in
    let exp :=
      match r2 with
      | [] => Some 0
      | c :: r => if Ascii.eqb (lower c) "e" then parse_exponent r else None
      end in
    match exp with
    | Some e =>
        let coeff := digits_to_N (intpart ++ fracpart) in
        let exp := e - Z.of_nat (length fracpart) in
        (* the conversion must be exact *)
        if (adjusted coeff exp <=? MAX_EMAX) && (MIN_ETINY <=? exp)
        then Some (Finite sign coeff exp)
        else None
    | None => None
    end
  else None.

Definition lower_string (l : list ascii) : string :=
  string_of_list_ascii (map lower l).

Definition parse_nan (sign signaling : bool) (l : list ascii) : option Decimal :=
  let '(ds, rest) := span_digits l in
  match rest with
  | [] => Some (NaN sign signaling (digits_to_N ds))
  | _ :: _ => None
  end.

Definition parse_special (sign : bool) (l : list ascii) : option Decimal :=
  if String.eqb (lower_string l) "inf" || String.eqb (lower_string l) "infinity"
  then Some (Infinity sign)
  else if String.eqb (lower_string (firstn 3 l)) "nan"
  then parse_nan sign false (skipn 3 l)
  else if String.eqb (lower_string (firstn 4 l)) "snan"
  then parse_nan sign true (skipn 4 l)
  else None.

Definition of_string (value : string) : option Decimal :=
  let l := remove_underscores (strip (list_ascii_of_string value)) in
  let '(sign, r) := split_sign l in
  match parse_finite sign r with
  | Some d => Some d
  | None => parse_special sign r
  end.

(** [Decimal(value)] for a request field: [None] is a [TypeError], a
    string outside the grammar signals ConversionSyntax, which the
    default context raises as [InvalidOperation]. *)
Definition new (value : option string) : result Decimal :=
  match value with
  | None => Raise TypeError
  | Some s =>
      match of_string s with
      | Some d => Ok d
      | None => Raise InvalidOperation
      end
  end.


(** *** The default context *)

Definition prec : Z := 28.
Definition Emax : Z := 999999.
Definition Emin : Z := -999999.
Definition Etiny : Z := Emin - prec + 1.
Definition Etop : Z := Emax - prec + 1.

Definition is_nan (d : Decimal) : bool :=
  match d with NaN _ _ _ => true | _ => false end.

Definition is_zero (d : Decimal) : bool :=
  match d with Finite _ c _ => (c =? 0)%N | _ => false end.

(** *** Rounding (ROUND_HALF_EVEN)

    The rounding functions look at [self._int] from index [digits] on.
    With [k] the number of digits from there to the end, that tail
    denotes [c mod 10^k], its first digit is [(c / 10^(k-1)) mod 10], and
    the digits before it denote [c / 10^k]. *)

Definition tail_len (c : N) (digits : Z) : N := Z.to_N (ndigits c - digits).

(** [int(self._int[:digits] or '0')] *)
Definition head_digits (c : N) (digits : Z) : N :=
  (c / 10 ^ tail_len c digits)%N.

(** [_exact_half(self._int, digits)]: the tail is a 5 followed by zeros. *)
Definition _exact_half (c : N) (digits : Z) : bool :=
  let k := tail_len c digits in
  (c mod 10 ^ k =? 5 * 10 ^ (k - 1))%N.

(** [_all_zeros(self._int, digits)] *)
Definition _all_zeros (c : N) (digits : Z) : bool :=
  (c mod 10 ^ tail_len c digits =? 0)%N.

Definition _round_half_up (c : N) (digits : Z) : Z :=
  let k := tail_len c digits in
  if (5 <=? (c / 10 ^ (k - 1)) mod 10)%N then 1
  else if _all_zeros c digits then 0
  else -1.

Definition _round_half_even (c : N) (digits : Z) : Z :=
  if _exact_half c digits && ((digits =? 0) || N.even (head_digits c digits))
  then -1
  else _round_half_up c digits.

(** [self._rescale(exp, ROUND_HALF_EVEN)] of a finite number. *)
Definition _rescale (sign : bool) (c : N) (e : Z) (exp : Z) : Decimal :=
  if (c =? 0)%N then Finite sign 0 exp
  else if exp <=? e then Finite sign (c * 10 ^ Z.to_N (e - exp)) exp
  else
    let digits := ndigits c + e - exp in
    (* below one unit of the last place: round 10^(exp-1) instead *)
    let '(c1, digits1) := if digits <? 0 then (1%N, 0) else (c, digits) in
    let changed := _round_half_even c1 digits1 in
    let coeff := head_digits c1 digits1 in
    Finite sign (if changed =? 1 then (coeff + 1)%N else coeff) exp.

(** [self._fix(context)]: round to the context precision and check the
    exponent range.  Of the signals only Overflow is trapped. *)
Definition _fix (d : Decimal) : result Decimal :=
  match d with
  | NaN s sg diag => Ok (NaN s sg (diag mod 10 ^ Z.to_N prec))
  | Infinity _ => Ok d
  | Finite sign c e =>
      if (c =? 0)%N then Ok (Finite sign 0 (Z.min (Z.max e Etiny) Emax))
      else
        let exp_min := ndigits c + e - prec in
        if Etop <? exp_min then Raise Overflow
        else
          let exp_min := if exp_min <? Etiny then Etiny else exp_min in
          if e <? exp_min then
            let digits := ndigits c + e - exp_min in
            let '(c1, digits1) := if digits <? 0 then (1%N, 0) else (c, digits) in
            let changed := _round_half_even c1 digits1 in
            let coeff := head_digits c1 digits1 in
            let '(coeff, exp_min) :=
              if 0 <? changed then
                if prec <? ndigits (coeff + 1)
                then (((coeff + 1) / 10)%N, exp_min + 1)
                else ((coeff + 1)%N, exp_min)
              else (coeff, exp_min) in
            if Etop <? exp_min then Raise Overflow
            else Ok (Finite sign coeff exp_min)
          else Ok d
  end.

(** [self._check_nans(other, context)]: [None] when neither is a NaN. *)
Definition _check_nans (a b : Decimal) : option (result Decimal) :=
  match a, b with
  | NaN _ true _, _ => Some (Raise InvalidOperation)
  | _, NaN _ true _ => Some (Raise InvalidOperation)
  | NaN _ false _, _ => Some (_fix a)
  | _, NaN _ false _ => Some (_fix b)
  | _, _ => None
  end.

(** [self.quantize(exp)] *)
Definition quantize (self exp : Decimal) : result Decimal :=
  match _check_nans self exp with
  | Some r => r
  | None =>
      match self, exp with
      | Infinity _, Infinity _ => Ok self
      | Infinity _, _ | _, Infinity _ => Raise InvalidOperation
      | Finite sign c e, Finite _ _ q =>
          if negb ((Etiny <=? q) && (q <=? Emax)) then Raise InvalidOperation
          else if (c =? 0)%N then _fix (Finite sign 0 q)
          else if Emax <? adjusted c e then Raise InvalidOperation
          else if prec <? adjusted c e - q + 1 then Raise InvalidOperation
          else
            match _rescale sign c e q with
            | Finite s' c' e' =>
                if Emax <? adjusted c' e' then Raise InvalidOperation
                else if prec <? ndigits c' then Raise InvalidOperation
                else _fix (Finite s' c' e')
            | ans => Ok ans
            end
      | _, _ => Raise InvalidOperation
      end
  end.

(** [self._cmp(other)] for operands that are not NaN. *)
Definition _cmp (a b : Decimal) : Z :=
  let sgn (s : bool) : Z := if s then -1 else 1 in
  let inf (d : Decimal) : Z :=
    match d with Infinity s => sgn s | _ => 0 end in
  match a, b with
  | Finite s1 c1 e1, Finite s2 c2 e2 =>
      if (c1 =? 0)%N then (if (c2 =? 0)%N then 0 else - sgn s2)
      else if (c2 =? 0)%N then sgn s1
      else if negb s2 && s1 then -1
      else if negb s1 && s2 then 1
      else
        match adjusted c1 e1 ?= adjusted c2 e2 with
        | Eq =>
            match (c1 * 10 ^ Z.to_N (e1 - e2) ?= c2 * 10 ^ Z.to_N (e2 - e1))%N with
            | Eq => 0
            | Lt => - sgn s1
            | Gt => sgn s1
            end
        | Gt => sgn s1
        | Lt => - sgn s1
        end
  | _, _ =>
      match inf a ?= inf b with
      | Eq => 0
      | Lt => -1
      | Gt => 1
      end
  end.

(** [self <= other]: an ordering comparison with a NaN operand signals
    InvalidOperation, which the default context raises. *)
Definition le (a b : Decimal) : result bool :=
  if is_nan a || is_nan b then Raise InvalidOperation
  else Ok (_cmp a b <=? 0).

Definition of_int (z : Z) : Decimal := Finite (z <? 0) (Z.abs_N z) 0.

Definition sign_of (d : Decimal) : bool :=
  match d with Finite s _ _ | Infinity s | NaN s _ _ => s end.

(** [self * other] *)
Definition mul (a b : Decimal) : result Decimal :=
  match _check_nans a b with
  | Some r => r
  | None =>
      let s := xorb (sign_of a) (sign_of b) in
      match a, b with
      | Finite _ c1 e1, Finite _ c2 e2 => _fix (Finite s (c1 * c2) (e1 + e2))
      | Infinity _, _ => if is_zero b then Raise InvalidOperation else Ok (Infinity s)
      | _, _ => if is_zero a then Raise InvalidOperation else Ok (Infinity s)
      end
  end.

(** The loop of [__truediv__] that brings an exact quotient as close to
    the ideal exponent as its trailing zeros allow. *)
Fixpoint strip_zeros (fuel : nat) (coeff : N) (exp ideal_exp : Z) : N * Z :=
  match fuel with
  | O => (coeff, exp)
  | S f =>
      if (exp <? ideal_exp) && (coeff mod 10 =? 0)%N
      then strip_zeros f (coeff / 10) (exp + 1) ideal_exp
      else (coeff, exp)
  end.

(** [self / other] *)
Definition truediv (a b : Decimal) : result Decimal :=
  match _check_nans a b with
  | Some r => r
  | None =>
      let s := xorb (sign_of a) (sign_of b) in
      match a, b with
      | Infinity _, Infinity _ => Raise InvalidOperation
      | Infinity _, _ => Ok (Infinity s)
      | _, Infinity _ => Ok (Finite s 0 Etiny)
      | Finite _ c1 e1, Finite _ c2 e2 =>
          if (c2 =? 0)%N then
            (if (c1 =? 0)%N then Raise InvalidOperation else Raise DivisionByZero)
          else if (c1 =? 0)%N then _fix (Finite s 0 (e1 - e2))
          else
            let shift := ndigits c2 - ndigits c1 + prec + 1 in
            let exp := e1 - e2 - shift in
            let '(coeff, remainder) :=
              if 0 <=? shift
              then (c1 * 10 ^ Z.to_N shift / c2, (c1 * 10 ^ Z.to_N shift) mod c2)%N
              else (c1 / (c2 * 10 ^ Z.to_N (- shift)),
                    c1 mod (c2 * 10 ^ Z.to_N (- shift)))%N in
            if (remainder =? 0)%N then
              let ideal_exp := e1 - e2 in
              let '(coeff, exp) :=
                strip_zeros (Z.to_nat (ideal_exp - exp)) coeff exp ideal_exp in
              _fix (Finite s coeff exp)
            else
              _fix (Finite s (if (coeff mod 5 =? 0)%N then (coeff + 1)%N else coeff) exp)
      | _, _ => Raise InvalidOperation
      end
  end.

(** [int(self)]: truncation toward zero. *)
Definition to_int (d : Decimal) : result Z :=
  match d with
  | NaN _ _ _ => Raise (ValueError "Cannot convert NaN to integer")
  | Infinity _ => Raise OverflowError
  | Finite sign c e =>
      let s : Z := if sign then -1 else 1 in
      if 0 <=? e then Ok (s * Z.of_N c * 10 ^ e)
      else Ok (s * Z.of_N (c / 10 ^ Z.to_N (- e)))
  end.

(** [format(self, ".2f")] *)
Definition format_2f (d : Decimal) : list ascii :=
  let sign_str (s : bool) : list ascii := if s then ["-"%char] else [] in
  match d with
  | Infinity s => sign_str s ++ list_ascii_of_string "Infinity"
  | NaN s sg diag =>
      sign_str s ++ (if sg then ["s"%char] else [])
        ++ list_ascii_of_string "NaN" ++ (if (diag =? 0)%N then [] else str diag)
  | Finite sign c e =>
      match _rescale sign c e (- 2) with
      | Finite sign c e =>
          let _int := str c in
          let dotplace := e + Z.of_nat (length _int) in
          let '(intpart, fracpart) :=
            if dotplace <? 0 then
              (["0"%char], zeros (Z.to_nat (- dotplace)) ++ _int)
            else if Z.of_nat (length _int) <? dotplace then
              (_int ++ zeros (Z.to_nat (dotplace - Z.of_nat (length _int))), [])
            else
              (match firstn (Z.to_nat dotplace) _int with
               | [] => ["0"%char]
               | ds => ds
               end,
               skipn (Z.to_nat dotplace) _int) in
          sign_str sign ++ intpart
            ++ match fracpart with [] => [] | _ => "."%char :: fracpart end
      | _ => []
      end
  end.

End PyDecimal.

(** ** The amount codec of [app.py] *)

Definition _format_amount_from_cents (amount_cents : Z) : result string :=
  amount <- PyDecimal.truediv (PyDecimal.of_int amount_cents)
                              (PyDecimal.Finite false 100 0) ;;
  Ok (string_of_list_ascii (PyDecimal.format_2f amount)).

Definition _parse_amount_to_cents (amount_raw : option string) : result Z :=
  match (v <- PyDecimal.new amount_raw ;;
         q <- PyDecimal.new (Some "0.01"%string) ;;
         PyDecimal.quantize v q) with
  | Raise InvalidOperation | Raise TypeError =>
      Raise (ValueError "Invalid amount.")
  | Raise e => Raise e
  | Ok amount =>
      nonpositive <- PyDecimal.le amount (PyDecimal.of_int 0) ;;
      if (nonpositive : bool)
      then Raise (ValueError "Amount must be greater than zero.")
      else
        cents <- PyDecimal.mul amount (PyDecimal.of_int 100) ;;
        PyDecimal.to_int cents
  end.

(** ** The Stripe client, seen from the handlers

    The client library is external.  A call either returns a payment
    intent, raises [stripe.error.CardError], or raises something else.
    [stripe.api_key] is the module-level credential that [app.py] sets
    from [config.STRIPE_SECRET_KEY] at start-up. *)

Local Open Scope string_scope.

Record PaymentIntent : Type := {
  status : string;
  id : option string;
  client_secret : option string;
  amount : Z
}.

Record CardError : Type := {
  code : option string;         (* error.code *)
  error_code : option string;   (* error.error.code, None without one *)
  user_message : option string
}.

Inductive stripe_result : Type :=
| Returns (intent : PaymentIntent)
| RaisesCardError (exc : CardError)
| RaisesOther (detail : string).

Record create_params : Type := {
  p_amount : Z;
  p_currency : string;
  p_payment_method : option string;
  p_receipt_email : option string;
  p_confirm : bool
}.

Inductive stripe_call : Type :=
| PaymentIntent_create (params : create_params)
| PaymentIntent_confirm (payment_intent_id : option string).

Record Stripe : Type := {
  api_key : option string;
  run : stripe_call -> stripe_result
}.

(** Python truth value of a field that is a string or [None]. *)
Definition truthy (v : option string) : bool :=
  match v with
  | Some s => negb (String.eqb s "")
  | None => false
  end.

(** [a or b] *)
Definition py_or (a b : option string) : option string :=
  if truthy a then a else b.

Definition py_eq (v : option string) (s : string) : bool :=
  match v with
  | Some t => String.eqb t s
  | None => false
  end.

Definition _status_from_card_error (error : CardError) : string :=
  let code := py_or (code error) (error_code error) in
  if py_eq code "incorrect_cvc" then "live"
  else if py_eq code "insufficient_funds" then "live"
  else "false".

(** ** The HTTP handlers *)

Inductive json : Type :=
| JNull
| JString (s : string).

Definition jsonify_field (v : option string) : json :=
  match v with
  | Some s => JString s
  | None => JNull
  end.

(** What a handler produces: a JSON object with a status code, or an
    exception that leaves the view function (Flask then answers with its
    own 500 page). *)
Inductive outcome : Type :=
| Response (body : list (string * json)) (status_code : Z)
| Unhandled (e : exn).

Record create_request : Type := {
  r_amount : option string;
  r_payment_method_id : option string;
  r_email : option string
}.

Record confirm_request : Type := {
  r_payment_intent_id : option string
}.

Definition requires_action_body (intent : PaymentIntent) : list (string * json) :=
  [ ("status", JString "requires_action");
    ("payment_intent_id", jsonify_field (id intent));
    ("client_secret", jsonify_field (client_secret intent)) ].

Definition success_body (shown : string) (intent : PaymentIntent) : list (string * json) :=
  [ ("status", JString "true");
    ("message", JString ("your donation sucessfull " ++ shown));
    ("payment_intent_id", jsonify_field (id intent));
    ("client_secret", jsonify_field (client_secret intent)) ].

Definition card_error_response (exc : CardError) : outcome :=
  Response [ ("status", JString (_status_from_card_error exc));
             ("message", jsonify_field (user_message exc)) ] 402.

Definition failure_response (message : string) (status_code : Z) : outcome :=
  Response [ ("status", JString "false"); ("message", JString message) ] status_code.

(** Each handler returns its outcome together with the calls it made to
    the Stripe client, in order. *)
Definition create_payment_intent (stripe : Stripe) (data : create_request)
  : outcome * list stripe_call :=
  let amount_raw := r_amount data in
  let payment_method_id := r_payment_method_id data in
  let email := r_email data in
  if negb (truthy (api_key stripe)) then
    (Response [ ("error", JString "Stripe secret key not set.") ] 500, [])
  else if negb (truthy payment_method_id) then
    (Response [ ("error", JString "Payment method is required.") ] 400, [])
  else
    match _parse_amount_to_cents amount_raw with
    | Raise (ValueError msg) => (failure_response msg 400, [])
    | Raise e => (Unhandled e, [])
    | Ok amount_cents =>
        let call := PaymentIntent_create
          {| p_amount := amount_cents;
             p_currency := "usd";
             p_payment_method := payment_method_id;
             p_receipt_email := py_or email None;
             p_confirm := true |} in
        (match run stripe call with
         | Returns intent =>
             if String.eqb (status intent) "requires_action"
             then Response (requires_action_body intent) 200
             else
               match _format_amount_from_cents amount_cents with
               | Ok shown => Response (success_body shown intent) 200
               | Raise _ => failure_response "Unable to create payment intent." 500
               end
         | RaisesCardError exc => card_error_response exc
         | RaisesOther _ => failure_response "Unable to create payment intent." 500
         end, [call])
    end.

Definition confirm_payment_intent (stripe : Stripe) (data : confirm_request)
  : outcome * list stripe_call :=
  let payment_intent_id := r_payment_intent_id data in
  if negb (truthy payment_intent_id) then
    (failure_response "Payment intent id is required." 400, [])
  else
    let call := PaymentIntent_confirm payment_intent_id in
    (match run stripe call with
     | Returns intent =>
         if String.eqb (status intent) "requires_action"
         then Response (requires_action_body intent) 200
         else
           match _format_amount_from_cents (amount intent) with
           | Ok shown => Response (success_body shown intent) 200
           | Raise _ => failure_response "Unable to confirm payment intent." 500
           end
     | RaisesCardError exc => card_error_response exc
     | RaisesOther _ => failure_response "Unable to confirm payment intent." 500
     end, [call]).

(** The call that [create_payment_intent] sends to the processor. *)
Definition create_call (amount_cents : Z) (data : create_request) : stripe_call :=
  PaymentIntent_create
    {| p_amount := amount_cents;
       p_currency := "usd";
       p_payment_method := r_payment_method_id data;
       p_receipt_email := py_or (r_email data) None;
       p_confirm := true |}.

(** ** Start-up configuration

    The module [config] is not part of the source; its settings are taken
    as a record of values that are strings or [None], as settings read
    from the environment are. *)

Record Config : Type := {
  STRIPE_SECRET_KEY : option string;
  PROXY_SCHEME : option string;
  PROXY_HOST : option string;
  PROXY_PORT : option string;
  PROXY_USERNAME : option string;
  PROXY_PASSWORD : option string
}.

(** What an f-string puts for a value: the string itself, or "None". *)
Definition py_str (v : option string) : string :=
  match v with
  | Some s => s
  | None => "None"
  end.

Definition _build_proxy_url (config : Config) : string :=
  if truthy (PROXY_HOST config) && truthy (PROXY_PORT config)
     && truthy (PROXY_USERNAME config) && truthy (PROXY_PASSWORD config)
  then
    py_str (PROXY_SCHEME config) ++ "://" ++ py_str (PROXY_USERNAME config)
      ++ ":" ++ py_str (PROXY_PASSWORD config)
      ++ "@" ++ py_str (PROXY_HOST config) ++ ":" ++ py_str (PROXY_PORT config)
  else "".

(** The module-level assignment [stripe.proxy = _build_proxy_url() or None]. *)
Definition stripe_proxy (config : Config) : option string :=
  py_or (Some (_build_proxy_url config)) None.

(** The value of a field of a JSON object, as a client reads it. *)
Fixpoint field (name : string) (body : list (string * json)) : option json :=
  match body with
  | [] => None
  | (k, v) :: rest => if String.eqb k name then Some v else field name rest
  end.

(** The status labels and the HTTP codes they come with. *)
Definition label_matches_code (label : string) (status_code : Z) : Prop :=
  (status_code = 200 /\ (label = "true" \/ label = "requires_action")) \/
  (status_code = 402 /\ (label = "live" \/ label = "false")) \/
  ((status_code = 400 \/ status_code = 500) /\ label = "false").

(** ** What the codec is meant to compute

    The specification side: the rational number a finite decimal
    denotes, rounding to the nearest integer with ties to even, and the
    rendering of a count of cents with two fractional digits. *)

Module Spec.
Import Chars PyDecimal.
Local Open Scope Z_scope.

(** The number a finite decimal denotes. *)
Definition signed (sign : bool) (c : N) : Z := if sign then - Z.of_N c else Z.of_N c.

Definition value (sign : bool) (c : N) (e : Z) : Q :=
  (inject_Z (signed sign c) * inject_Z 10 ^ e)%Q.

(** The nearest integer, a tie going to the even neighbour. *)
Definition round_half_even (x : Q) : Z :=
  let f := Qfloor x in
  match (x - inject_Z f ?= 1 # 2)%Q with
  | Lt => f
  | Eq => if Z.even f then f else f + 1
  | Gt => f + 1
  end.

(** Rounding a quotient by a power of ten to the nearest integer, ties to even *)
Definition round_div (c k : N) : N :=
  let q := (c / 10 ^ k)%N in
  match (2 * (c mod 10 ^ k) ?= 10 ^ k)%N with
  | Lt => q
  | Eq => if N.even q then q else (q + 1)%N
  | Gt => (q + 1)%N
  end.

(** The amount in cents that a finite decimal stands for. *)
Definition cents_of (sign : bool) (c : N) (e : Z) : Z :=
  round_half_even (inject_Z 100 * value sign c e).

(** What [quantize] computes for the coefficient at exponent -2. *)
Definition quantum_coeff (c : N) (e : Z) : N :=
  if -2 <=? e then (c * 10 ^ Z.to_N (e + 2))%N else round_div c (Z.to_N (- 2 - e)).

(** An amount of [n] cents written with two fractional digits. *)
Definition render_cents (n : N) : string :=
  string_of_list_ascii
    (str (n / 100)
       ++ ["."%char; digit_char ((n / 10) mod 10); digit_char (n mod 10)]).

(** A character that is one of the ten digits. *)
Definition decimal_digit (c : ascii) : Prop := exists d, (d < 10)%N /\ c = digit_char d.

(** The characters of a rendered amount. *)
Definition rendered (n : N) : list ascii :=
  (str (n / 100)
     ++ ["."%char; digit_char ((n / 10) mod 10); digit_char (n mod 10)])%list.

End Spec.

(** * Properties *)

Import Chars PyDecimal Spec.
Local Open Scope Z_scope.

(** ** Decimal digit strings *)

Lemma str_fuel_enough (f : nat) :
  forall (g : nat) (n : N),
    (n < 10 ^ (N.of_nat f + 1))%N -> (f <= g)%nat ->
    str_fuel g n = str_fuel f n.
Proof.
  induction f as [|f IH]; intros g n Hn Hg.
  - change (10 ^ (N.of_nat 0 + 1))%N with 10%N in Hn.
    destruct g as [|g]; simpl.
    + reflexivity.
    + apply N.ltb_lt in Hn. rewrite Hn.
      apply N.ltb_lt in Hn. now rewrite N.mod_small.
  - destruct g as [|g]; [lia|].
    simpl. destruct (n <? 10)%N eqn:E; [reflexivity|].
    f_equal. apply IH; [|lia].
    apply N.ltb_ge in E.
    replace (N.of_nat (S f) + 1)%N with (N.succ (N.of_nat f + 1)) in Hn by lia.
    rewrite N.pow_succ_r' in Hn.
    apply N.Div0.div_lt_upper_bound. exact Hn.
Qed.

Lemma log2_fuel (n : N) : (n < 10 ^ (N.log2 n + 1))%N.
Proof.
  destruct (N.eq_dec n 0) as [->|Hn]; [reflexivity|].
  assert (H : (n < 2 ^ N.succ (N.log2 n))%N) by (apply N.log2_spec; lia).
  rewrite N.add_1_r.
  eapply N.lt_le_trans; [exact H|].
  apply N.pow_le_mono_l. lia.
Qed.

Lemma str_fuel_str (f : nat) (n : N) :
  (n < 10 ^ (N.of_nat f + 1))%N -> str_fuel f n = str n.
Proof.
  intros Hn. unfold str.
  destruct (Nat.le_ge_cases f (N.to_nat (N.log2 n))) as [H|H].
  - symmetry. now apply str_fuel_enough.
  - apply str_fuel_enough; [|exact H].
    rewrite N2Nat.id. apply log2_fuel.
Qed.

Lemma str_small (n : N) : (n < 10)%N -> str n = [digit_char n].
Proof.
  intros Hn. rewrite <- (str_fuel_str 0 n) by exact Hn.
  simpl. now rewrite N.mod_small.
Qed.

Lemma str_step (n : N) :
  (10 <= n)%N -> str n = (str (n / 10) ++ [digit_char (n mod 10)])%list.
Proof.
  intros Hn.
  rewrite <- (str_fuel_str (S (N.to_nat (N.log2 n))) n).
  - simpl. apply N.ltb_ge in Hn. rewrite Hn. f_equal.
    apply str_fuel_str. rewrite N2Nat.id.
    apply N.Div0.div_lt_upper_bound.
    pose proof (log2_fuel n). lia.
  - eapply N.lt_le_trans; [apply log2_fuel|].
    apply N.pow_le_mono_r; lia.
Qed.

Lemma ndigits_small (n : N) : (n < 10)%N -> ndigits n = 1.
Proof. intros Hn. unfold ndigits. now rewrite str_small. Qed.

Lemma ndigits_step (n : N) : (10 <= n)%N -> ndigits n = ndigits (n / 10) + 1.
Proof.
  intros Hn. unfold ndigits. rewrite str_step by exact Hn.
  rewrite length_app. simpl. lia.
Qed.

Lemma ndigits_pos (n : N) : 1 <= ndigits n.
Proof.
  destruct (N.lt_ge_cases n 10) as [H|H].
  - rewrite ndigits_small by exact H. lia.
  - rewrite ndigits_step by exact H. unfold ndigits. lia.
Qed.

Lemma ndigits_bounds (n : N) :
  (0 < n)%N -> 10 ^ (ndigits n - 1) <= Z.of_N n < 10 ^ ndigits n.
Proof.
  induction n as [n IH] using (well_founded_induction N.lt_wf_0).
  intros Hpos.
  destruct (N.lt_ge_cases n 10) as [H|H].
  - rewrite ndigits_small by exact H. simpl. lia.
  - rewrite ndigits_step by exact H.
    assert (Hq : (0 < n / 10)%N) by (apply N.div_str_pos; lia).
    assert (Hlt : (n / 10 < n)%N) by (apply N.div_lt; lia).
    specialize (IH _ Hlt Hq).
    pose proof (ndigits_pos (n / 10)) as Hd.
    rewrite N2Z.inj_div in IH. change (Z.of_N 10) with 10 in IH.
    replace (ndigits (n / 10) + 1 - 1) with (Z.succ (ndigits (n / 10) - 1)) by lia.
    replace (ndigits (n / 10) + 1) with (Z.succ (ndigits (n / 10))) by lia.
    rewrite !Z.pow_succ_r by lia.
    pose proof (Z.div_mod (Z.of_N n) 10 ltac:(lia)) as E.
    pose proof (Z.mod_pos_bound (Z.of_N n) 10 ltac:(lia)) as B.
    lia.
Qed.

Lemma ndigits_unique (n : N) (a : Z) :
  10 ^ (a - 1) <= Z.of_N n < 10 ^ a -> 1 <= a -> ndigits n = a.
Proof.
  intros [Hlo Hhi] Ha.
  assert (Hpos : (0 < n)%N).
  { assert (0 < 10 ^ (a - 1)) by (apply Z.pow_pos_nonneg; lia). lia. }
  destruct (ndigits_bounds n Hpos) as [Blo Bhi].
  pose proof (ndigits_pos n) as Hd.
  destruct (Z.lt_trichotomy (ndigits n) a) as [L|[E|G]]; [|exact E|].
  - assert (10 ^ ndigits n <= 10 ^ (a - 1)) by (apply Z.pow_le_mono_r; lia). lia.
  - assert (10 ^ a <= 10 ^ (ndigits n - 1)) by (apply Z.pow_le_mono_r; lia). lia.
Qed.

Lemma ndigits_mul_pow10 (m : N) (j : N) :
  (0 < m)%N -> ndigits (m * 10 ^ j) = ndigits m + Z.of_N j.
Proof.
  intros Hm. pose proof (ndigits_pos m) as Hd.
  destruct (ndigits_bounds m Hm) as [Blo Bhi].
  apply ndigits_unique; [|lia].
  rewrite N2Z.inj_mul, N2Z.inj_pow. change (Z.of_N 10) with 10.
  replace (ndigits m + Z.of_N j - 1) with ((ndigits m - 1) + Z.of_N j) by lia.
  rewrite !Z.pow_add_r by lia.
  assert (0 < 10 ^ Z.of_N j) by (apply Z.pow_pos_nonneg; lia).
  split; nia.
Qed.


Lemma pow10_pos (k : N) : (0 < 10 ^ k)%N.
Proof. apply N.neq_0_lt_0, N.pow_nonzero. discriminate. Qed.

Lemma tail_split (c k : N) :
  (1 <= k)%N ->
  (10 ^ k = 10 * 10 ^ (k - 1) /\
   c mod 10 ^ k = c mod 10 ^ (k - 1) + 10 ^ (k - 1) * ((c / 10 ^ (k - 1)) mod 10) /\
   c mod 10 ^ (k - 1) < 10 ^ (k - 1) /\
   (c / 10 ^ (k - 1)) mod 10 < 10)%N.
Proof.
  intros Hk.
  assert (E : (10 ^ k = 10 * 10 ^ (k - 1))%N).
  { rewrite <- N.pow_succ_r'. f_equal. lia. }
  pose proof (pow10_pos (k - 1)) as Hp.
  repeat split.
  - exact E.
  - rewrite E, (N.mul_comm 10). apply N.Div0.mod_mul_r.
  - apply N.mod_lt. lia.
  - apply N.mod_lt. discriminate.
Qed.

Lemma half_compare (P x d : N) :
  (0 < P)%N -> (x < P)%N ->
  match (2 * (x + P * d) ?= 10 * P)%N with
  | Lt => (d < 5)%N
  | Eq => d = 5%N /\ x = 0%N
  | Gt => (5 <= d)%N /\ (x + P * d)%N <> (5 * P)%N
  end.
Proof.
  intros HP Hx.
  assert (Hmono : forall a b : N, (a <= b -> P * a <= P * b)%N)
    by (intros a b Hab; now apply N.mul_le_mono_l).
  destruct (N.compare_spec (2 * (x + P * d)) (10 * P)) as [C|C|C].
  - destruct (N.lt_trichotomy d 5) as [L|[L|L]].
    + pose proof (Hmono d 4%N ltac:(lia)). lia.
    + subst d. lia.
    + pose proof (Hmono 6%N d ltac:(lia)). lia.
  - destruct (N.lt_ge_cases d 5) as [L|L]; [exact L|].
    pose proof (Hmono 5%N d L). lia.
  - split; [|lia].
    destruct (N.lt_ge_cases d 5) as [L|L]; [|exact L].
    pose proof (Hmono d 4%N ltac:(lia)). lia.
Qed.

Lemma round_half_even_code (c : N) (digits : Z) (k : N) :
  tail_len c digits = k -> (1 <= k)%N ->
  (digits = 0 -> (c / 10 ^ k = 0)%N) ->
  (if _round_half_even c digits =? 1
   then (head_digits c digits + 1)%N else head_digits c digits)
  = round_div c k.
Proof.
  intros Hk Hk1 Hz.
  unfold _round_half_even, _round_half_up, _exact_half, _all_zeros, head_digits, round_div.
  rewrite Hk.
  destruct (tail_split c k Hk1) as (E & Ht & Hlo & Hd).
  pose proof (half_compare _ _ ((c / 10 ^ (k - 1)) mod 10) (pow10_pos (k - 1)) Hlo) as HC.
  set (q := (c / 10 ^ k)%N) in *.
  rewrite Ht, E.
  destruct (2 * (c mod 10 ^ (k - 1) + 10 ^ (k - 1) * ((c / 10 ^ (k - 1)) mod 10))
              ?= 10 * 10 ^ (k - 1))%N.
  - destruct HC as [Ed E0]. rewrite Ed, E0, N.add_0_l, (N.mul_comm 5), N.eqb_refl.
    cbn [andb].
    destruct (digits =? 0) eqn:D0.
    + apply Z.eqb_eq in D0. rewrite (Hz D0). reflexivity.
    + cbn [orb]. destruct (N.even q); reflexivity.
  - apply N.leb_gt in HC. rewrite HC.
    destruct (_ =? _)%N eqn:Eh.
    + apply N.eqb_eq in Eh. apply N.leb_gt in HC.
      pose proof (pow10_pos (k - 1)).
      assert (10 ^ (k - 1) * 4 < 10 ^ (k - 1) * ((c / 10 ^ (k - 1)) mod 10))%N by lia.
      apply N.mul_lt_mono_pos_l in H0; lia.
    + cbn [andb]. destruct (_ =? 0)%N; reflexivity.
  - destruct HC as [Ld Hne].
    apply N.eqb_neq in Hne. rewrite Hne. apply N.leb_le in Ld. rewrite Ld.
    reflexivity.
Qed.

Lemma rescale_exact (s : bool) (c : N) (e q : Z) :
  c <> 0%N -> q <= e ->
  _rescale s c e q = Finite s (c * 10 ^ Z.to_N (e - q)) q.
Proof.
  intros Hc He. unfold _rescale.
  apply N.eqb_neq in Hc. rewrite Hc.
  apply Z.leb_le in He. now rewrite He.
Qed.

Lemma rescale_round (s : bool) (c : N) (e q : Z) :
  c <> 0%N -> e < q ->
  _rescale s c e q = Finite s (round_div c (Z.to_N (q - e))) q.
Proof.
  intros Hc He. unfold _rescale.
  pose proof Hc as Hc'. apply N.eqb_neq in Hc'. rewrite Hc'.
  pose proof He as He'. apply Z.leb_gt in He'. rewrite He'.
  set (k := Z.to_N (q - e)).
  assert (Hk1 : (1 <= k)%N) by (unfold k; lia).
  assert (Hpos : (0 < c)%N) by lia.
  destruct (ndigits_bounds c Hpos) as [Blo Bhi].
  pose proof (ndigits_pos c) as Hd.
  destruct (ndigits c + e - q <? 0) eqn:Dneg.
  - apply Z.ltb_lt in Dneg.
    change (Finite s 0 q = Finite s (round_div c k) q). f_equal.
    (* c < 10^(k-1), hence the quotient is 0 and the tail is below one half *)
    assert (Hsmall : Z.of_N c < 10 ^ (Z.of_N k - 1)).
    { eapply Z.lt_le_trans; [exact Bhi|]. apply Z.pow_le_mono_r; unfold k; lia. }
    destruct (tail_split c k Hk1) as (E & _ & _ & _).
    assert (HcP : (c < 10 ^ (k - 1))%N).
    { apply N2Z.inj_lt. rewrite N2Z.inj_pow, N2Z.inj_sub by lia. exact Hsmall. }
    unfold round_div.
    assert (Hq : (c / 10 ^ k = 0)%N) by (apply N.div_small; lia).
    assert (Hm : (c mod 10 ^ k = c)%N) by (apply N.mod_small; lia).
    rewrite Hq, Hm.
    destruct (N.compare_spec (2 * c) (10 ^ k)) as [C|C|C]; try reflexivity; lia.
  - apply Z.ltb_ge in Dneg. f_equal.
    apply round_half_even_code.
    + unfold tail_len, k. f_equal. lia.
    + exact Hk1.
    + intros D0. apply N.div_small.
      apply N2Z.inj_lt. rewrite N2Z.inj_pow. change (Z.of_N 10) with 10.
      replace (Z.of_N k) with (ndigits c); [exact Bhi|]. unfold k. lia.
Qed.

(** ** Rounding against the rational specification *)



Lemma round_half_even_comp (x y : Q) :
  (x == y)%Q -> round_half_even x = round_half_even y.
Proof.
  intros E. unfold round_half_even.
  rewrite (Qfloor_comp _ _ E).
  assert (E' : (x - inject_Z (Qfloor y) == y - inject_Z (Qfloor y))%Q) by now rewrite E.
  now rewrite (Qcompare_comp _ _ E' _ _ (Qeq_refl _)).
Qed.

Lemma round_half_even_Z (z : Z) : round_half_even (inject_Z z) = z.
Proof.
  unfold round_half_even. rewrite Qfloor_Z.
  assert (E : (inject_Z z - inject_Z z ?= 1 # 2)%Q = Lt).
  { apply Qlt_alt. setoid_replace (inject_Z z - inject_Z z)%Q with 0%Q by ring. reflexivity. }
  now rewrite E.
Qed.

Lemma round_half_even_frac (a : Z) (p : positive) :
  round_half_even (a # p) =
  match 2 * (a mod Z.pos p) ?= Z.pos p with
  | Lt => a / Z.pos p
  | Eq => if Z.even (a / Z.pos p) then a / Z.pos p else a / Z.pos p + 1
  | Gt => a / Z.pos p + 1
  end.
Proof.
  unfold round_half_even.
  change (Qfloor (a # p)) with (a / Z.pos p).
  assert (E : ((a # p) - inject_Z (a / Z.pos p) ?= 1 # 2)%Q
              = (2 * (a mod Z.pos p) ?= Z.pos p)).
  { unfold Qcompare, Qminus, Qplus, Qopp, inject_Z. cbn [Qnum Qden].
    rewrite Z.mod_eq by lia.
    rewrite Pos.mul_1_r.
    f_equal; lia. }
  now rewrite E.
Qed.

Lemma round_half_even_ge (x : Q) (n : Z) :
  (inject_Z n <= x)%Q -> n <= round_half_even x.
Proof.
  intros H. apply Qfloor_resp_le in H. rewrite Qfloor_Z in H.
  unfold round_half_even.
  destruct (_ ?= _)%Q; [destruct (Z.even _)| |]; lia.
Qed.

Lemma round_half_even_nonpos (x : Q) :
  (x <= 0)%Q -> round_half_even x <= 0.
Proof.
  intros H. unfold round_half_even.
  pose proof (Qfloor_resp_le _ _ H) as Hf. change (Qfloor 0) with 0 in Hf.
  destruct (Z.eq_dec (Qfloor x) 0) as [E0|N0].
  - rewrite E0.
    assert (E : (x - inject_Z 0 ?= 1 # 2)%Q = Lt).
    { apply Qlt_alt. apply Qle_lt_trans with 0%Q; [|reflexivity].
      setoid_replace (x - inject_Z 0)%Q with x by (unfold inject_Z; ring). exact H. }
    rewrite E. lia.
  - destruct (_ ?= _)%Q; [destruct (Z.even _)| |]; lia.
Qed.

Lemma pow10_Q_nonneg (n : Z) : 0 <= n -> (inject_Z 10 ^ n == inject_Z (10 ^ n))%Q.
Proof. intros H. symmetry. now apply Zpower_Qpower. Qed.

Lemma pow10_Q_neg (n : Z) :
  n < 0 -> (inject_Z 10 ^ n == 1 # Z.to_pos (10 ^ (- n)))%Q.
Proof.
  intros H.
  replace n with (- (- n)) at 1 by lia.
  rewrite Qpower_opp, pow10_Q_nonneg by lia.
  assert (Hp : 0 < 10 ^ (- n)) by (apply Z.pow_pos_nonneg; lia).
  destruct (10 ^ (- n)) as [|p|p] eqn:E; try lia.
  reflexivity.
Qed.

Lemma scaled_value (sign : bool) (c : N) (e : Z) :
  (inject_Z 100 * value sign c e == inject_Z (signed sign c) * inject_Z 10 ^ (e + 2))%Q.
Proof.
  unfold value. rewrite Qpower_plus by discriminate.
  change (inject_Z 10 ^ 2)%Q with (inject_Z 100). ring.
Qed.

Lemma scaled_value_int (sign : bool) (c : N) (e : Z) :
  -2 <= e ->
  (inject_Z 100 * value sign c e == inject_Z (signed sign c * 10 ^ (e + 2)))%Q.
Proof.
  intros H. rewrite scaled_value, pow10_Q_nonneg by lia.
  unfold inject_Z, Qeq, Qmult. cbn [Qnum Qden]. lia.
Qed.

Lemma scaled_value_frac (sign : bool) (c : N) (e : Z) :
  e < -2 ->
  (inject_Z 100 * value sign c e == signed sign c # Z.to_pos (10 ^ (- 2 - e)))%Q.
Proof.
  intros H. rewrite scaled_value, pow10_Q_neg by lia.
  replace (- (e + 2)) with (- 2 - e) by lia.
  unfold inject_Z, Qeq, Qmult. cbn [Qnum Qden]. lia.
Qed.


Lemma cents_of_positive (c : N) (e : Z) :
  cents_of false c e = Z.of_N (quantum_coeff c e).
Proof.
  unfold cents_of, quantum_coeff.
  destruct (-2 <=? e) eqn:He.
  - apply Z.leb_le in He.
    rewrite (round_half_even_comp _ _ (scaled_value_int false c e He)).
    rewrite round_half_even_Z. unfold signed.
    rewrite N2Z.inj_mul, N2Z.inj_pow, Z2N.id by lia. reflexivity.
  - apply Z.leb_gt in He.
    rewrite (round_half_even_comp _ _ (scaled_value_frac false c e He)).
    rewrite round_half_even_frac. unfold signed, round_div.
    set (k := Z.to_N (- 2 - e)).
    assert (Hp : 0 < 10 ^ (- 2 - e)) by (apply Z.pow_pos_nonneg; lia).
    assert (Ep : Z.pos (Z.to_pos (10 ^ (- 2 - e))) = Z.of_N (10 ^ k)).
    { rewrite Z2Pos.id by exact Hp. unfold k.
      rewrite N2Z.inj_pow, Z2N.id by lia. reflexivity. }
    rewrite Ep.
    rewrite <- N2Z.inj_mod, <- N2Z.inj_div.
    change 2 with (Z.of_N 2) at 1. rewrite <- N2Z.inj_mul, N2Z.inj_compare.
    destruct (_ ?= _)%N.
    + rewrite <- (N2Z.inj_add _ 1).
      replace (Z.even (Z.of_N (c / 10 ^ k))) with (N.even (c / 10 ^ k)).
      * now destruct (N.even _).
      * destruct (c / 10 ^ k)%N as [|[p|p|]]; reflexivity.
    + reflexivity.
    + now rewrite N2Z.inj_add.
Qed.

Lemma cents_of_negative (c : N) (e : Z) : cents_of true c e <= 0.
Proof.
  unfold cents_of. apply round_half_even_nonpos.
  unfold value, signed.
  assert (Hpow : (0 < inject_Z 10 ^ e)%Q) by (apply Qpower_0_lt; reflexivity).
  assert (Hc : (inject_Z (- Z.of_N c) <= 0)%Q).
  { unfold Qle, inject_Z. cbn [Qnum Qden]. lia. }
  setoid_replace 0%Q with (inject_Z 100 * (0 * inject_Z 10 ^ e))%Q by ring.
  apply Qmult_le_l; [reflexivity|].
  apply Qmult_le_compat_r; [exact Hc|]. now apply Qlt_le_weak.
Qed.

(** ** Precision and exponent range *)

Lemma fix_zero (s : bool) (e : Z) :
  Etiny <= e <= Emax -> _fix (Finite s 0 e) = Ok (Finite s 0 e).
Proof.
  intros H. unfold _fix. cbn [N.eqb].
  rewrite Z.max_l, Z.min_l by lia. reflexivity.
Qed.

Lemma fix_id (s : bool) (c : N) (e : Z) :
  c <> 0%N -> ndigits c <= prec -> Etiny <= e -> e <= 0 ->
  _fix (Finite s c e) = Ok (Finite s c e).
Proof.
  intros Hc Hd He He0. unfold _fix.
  apply N.eqb_neq in Hc. rewrite Hc.
  pose proof (ndigits_pos c) as Hp.
  unfold prec, Etop, Emax, Etiny, Emin, prec in *.
  destruct (_ <? ndigits c + e - 28) eqn:E1; [apply Z.ltb_lt in E1; lia|].
  destruct (ndigits c + e - 28 <? _) eqn:E2.
  - destruct (e <? _) eqn:E3; [apply Z.ltb_lt in E3; lia|reflexivity].
  - destruct (e <? _) eqn:E3; [apply Z.ltb_lt in E3; lia|reflexivity].
Qed.

Lemma round_unchanged (c : N) (digits : Z) (k : N) :
  tail_len c digits = k -> (1 <= k)%N -> (c mod 10 ^ k = 0)%N ->
  _round_half_even c digits = 0.
Proof.
  intros Hk Hk1 Hm.
  unfold _round_half_even, _round_half_up, _exact_half, _all_zeros.
  rewrite Hk, Hm.
  destruct (tail_split c k Hk1) as (E & Ht & Hlo & Hd).
  pose proof (pow10_pos (k - 1)) as HP.
  assert (E5 : (0 =? 5 * 10 ^ (k - 1))%N = false) by (apply N.eqb_neq; lia).
  rewrite E5. cbn [andb].
  assert (Ed : ((c / 10 ^ (k - 1)) mod 10 = 0)%N).
  { rewrite Hm in Ht. symmetry in Ht. apply N.eq_add_0 in Ht. destruct Ht as [_ Ht].
    apply N.eq_mul_0 in Ht. destruct Ht; [lia|assumption]. }
  rewrite Ed. reflexivity.
Qed.

Lemma mul_pow10_div (m j : N) : (m * 10 ^ j / 10 ^ j = m)%N.
Proof. apply N.div_mul. apply N.pow_nonzero. discriminate. Qed.

Lemma mul_pow10_mod (m j : N) : ((m * 10 ^ j) mod 10 ^ j = 0)%N.
Proof. apply N.Div0.mod_mul. Qed.

(** [int(amount * 100)] gives back the coefficient of a two-place amount. *)
Lemma mul_100_to_int (m : N) :
  (0 < m)%N -> ndigits m <= prec ->
  bind (mul (Finite false m (-2)) (of_int 100)) to_int = Ok (Z.of_N m).
Proof.
  intros Hm Hd.
  pose proof (ndigits_pos m) as Hp.
  pose proof (ndigits_mul_pow10 m 2 Hm) as H100.
  change (10 ^ 2)%N with 100%N in H100. change (Z.of_N 2) with 2 in H100.
  unfold mul, of_int. cbn [_check_nans sign_of xorb Z.ltb Z.compare Z.abs_N Z.add].
  change (N.pos (Pos.of_nat 100)) with 100%N.
  change (Z.abs_N 100) with 100%N.
  unfold _fix.
  assert (Hne : (m * 100 =? 0)%N = false) by (apply N.eqb_neq; lia).
  rewrite Hne, H100.
  unfold prec, Etop, Emax, Etiny, Emin, prec in *.
  destruct (_ <? ndigits m + 2 + -2 - 28) eqn:E1; [apply Z.ltb_lt in E1; lia|].
  destruct (ndigits m + 2 + -2 - 28 <? _) eqn:E2; [apply Z.ltb_lt in E2; lia|].
  destruct (-2 <? ndigits m + 2 + -2 - 28) eqn:E3.
  - apply Z.ltb_lt in E3.
    destruct (_ <? 0) eqn:E4; [apply Z.ltb_lt in E4; lia|].
    set (k := Z.to_N (ndigits m - 26)).
    assert (Hk : tail_len (m * 100) (ndigits m + 2 + -2 - (ndigits m + 2 + -2 - 28)) = k).
    { unfold tail_len. rewrite H100. unfold k. f_equal. lia. }
    assert (Hk12 : k = 1%N \/ k = 2%N) by (unfold k; lia).
    assert (Hz : ((m * 100) mod 10 ^ k = 0)%N).
    { destruct Hk12 as [-> | ->].
      - replace (m * 100)%N with (m * 10 * 10 ^ 1)%N by lia. apply mul_pow10_mod.
      - apply (mul_pow10_mod m 2). }
    rewrite (round_unchanged _ _ k Hk ltac:(lia) Hz).
    cbn [Z.ltb Z.compare].
    unfold head_digits. rewrite Hk.
    destruct (_ <? ndigits m + 2 + -2 - 28) eqn:E5; [apply Z.ltb_lt in E5; lia|].
    cbn [bind to_int].
    destruct Hk12 as [Ek | Ek]; rewrite Ek.
    + assert (Ee : ndigits m + 2 + -2 - 28 = -1) by (unfold k in Ek; lia).
      rewrite Ee. cbn [Z.leb Z.compare Z.opp Z.to_N].
      replace (m * 100)%N with (m * 10 * 10 ^ 1)%N by lia.
      rewrite mul_pow10_div.
      change (10 ^ 1)%N with 10%N. rewrite N.div_mul by discriminate.
      f_equal. lia.
    + assert (Ee : ndigits m + 2 + -2 - 28 = 0) by (unfold k in Ek; lia).
      rewrite Ee. cbn [Z.leb Z.compare].
      change (m * 100)%N with (m * 10 ^ 2)%N.
      rewrite (mul_pow10_div m 2). f_equal. lia.
  - cbn [bind to_int Z.leb Z.compare Z.opp Z.to_N].
    change (m * 100)%N with (m * 10 ^ 2)%N.
    rewrite (mul_pow10_div m 2). f_equal. lia.
Qed.

(** ** The parser on finite decimals *)

Lemma round_div_ge (c k : N) : (c / 10 ^ k <= round_div c k)%N.
Proof.
  unfold round_div.
  destruct (_ ?= _)%N; [destruct (N.even _)| |]; lia.
Qed.

Lemma quantum_coeff_zero (e : Z) : quantum_coeff 0 e = 0%N.
Proof.
  unfold quantum_coeff, round_div.
  destruct (-2 <=? e); [reflexivity|].
  rewrite N.Div0.div_0_l, N.Div0.mod_0_l.
  pose proof (pow10_pos (Z.to_N (-2 - e))).
  destruct (N.compare_spec (2 * 0) (10 ^ Z.to_N (-2 - e))) as [C|C|C]; try reflexivity; lia.
Qed.

Lemma quantum_coeff_large (c : N) (e : Z) :
  c <> 0%N -> 27 <= e + ndigits c -> 10 ^ 28 <= Z.of_N (quantum_coeff c e).
Proof.
  intros Hc Hbig.
  destruct (ndigits_bounds c ltac:(lia)) as [Blo _].
  pose proof (ndigits_pos c) as Hp.
  unfold quantum_coeff.
  destruct (-2 <=? e) eqn:He.
  - apply Z.leb_le in He.
    rewrite N2Z.inj_mul, N2Z.inj_pow, Z2N.id by lia. change (Z.of_N 10) with 10.
    assert (H1 : 10 ^ 28 <= 10 ^ (ndigits c - 1) * 10 ^ (e + 2)).
    { rewrite <- Z.pow_add_r by lia. apply Z.pow_le_mono_r; lia. }
    assert (0 < 10 ^ (e + 2)) by (apply Z.pow_pos_nonneg; lia).
    nia.
  - apply Z.leb_gt in He.
    set (k := Z.to_N (-2 - e)).
    eapply Z.le_trans; [|apply N2Z.inj_le, round_div_ge].
    rewrite N2Z.inj_div, N2Z.inj_pow. change (Z.of_N 10) with 10.
    assert (Hk : Z.of_N k = -2 - e) by (unfold k; lia).
    apply Z.div_le_lower_bound; [apply Z.pow_pos_nonneg; lia|].
    rewrite <- Z.pow_add_r by lia.
    eapply Z.le_trans; [|exact Blo].
    apply Z.pow_le_mono_r; lia.
Qed.

Lemma ndigits_le_iff (m : N) (p : Z) :
  1 <= p -> (ndigits m <= p <-> Z.of_N m < 10 ^ p).
Proof.
  intros Hp. pose proof (ndigits_pos m) as Hd.
  destruct (N.eq_dec m 0) as [->|Hm].
  - rewrite ndigits_small by reflexivity. split; intros _; [|lia].
    apply Z.pow_pos_nonneg; lia.
  - destruct (ndigits_bounds m ltac:(lia)) as [Blo Bhi].
    split; intros H.
    + eapply Z.lt_le_trans; [exact Bhi|]. apply Z.pow_le_mono_r; lia.
    + destruct (Z.le_gt_cases (ndigits m) p) as [L|G]; [exact L|].
      assert (10 ^ p <= 10 ^ (ndigits m - 1)) by (apply Z.pow_le_mono_r; lia). lia.
Qed.

Lemma rescale_quantum (s : bool) (c : N) (e : Z) :
  c <> 0%N -> _rescale s c e (-2) = Finite s (quantum_coeff c e) (-2).
Proof.
  intros Hc. unfold quantum_coeff.
  destruct (-2 <=? e) eqn:He.
  - apply Z.leb_le in He. rewrite rescale_exact by assumption.
    replace (e - -2) with (e + 2) by lia. reflexivity.
  - apply Z.leb_gt in He. now rewrite rescale_round by assumption.
Qed.

(** [quantize] to two places succeeds exactly when the rounded
    coefficient fits the precision of the context. *)
Lemma quantize_cents (s : bool) (c : N) (e : Z) :
  quantize (Finite s c e) (Finite false 1 (-2)) =
  if Z.of_N (quantum_coeff c e) <? 10 ^ 28
  then Ok (Finite s (quantum_coeff c e) (-2))
  else Raise InvalidOperation.
Proof.
  unfold quantize. cbn [_check_nans].
  change (negb ((Etiny <=? -2) && (-2 <=? Emax))) with false. cbv iota.
  destruct (N.eq_dec c 0) as [->|Hc].
  - rewrite quantum_coeff_zero. cbn [N.eqb]. rewrite fix_zero by (cbv; split; discriminate).
    reflexivity.
  - pose proof Hc as Hc'. apply N.eqb_neq in Hc'. rewrite Hc'.
    pose proof (ndigits_pos c) as Hp.
    unfold adjusted at 1 2.
    assert (Hbig : 27 <= e + ndigits c ->
                   (Z.of_N (quantum_coeff c e) <? 10 ^ 28) = false).
    { intros H. apply Z.ltb_ge. now apply quantum_coeff_large. }
    destruct (Emax <? e + ndigits c - 1) eqn:E1.
    { apply Z.ltb_lt in E1. unfold Emax in E1. rewrite Hbig by lia. reflexivity. }
    destruct (prec <? e + ndigits c - 1 - -2 + 1) eqn:E2.
    { apply Z.ltb_lt in E2. unfold prec in E2. rewrite Hbig by lia. reflexivity. }
    rewrite rescale_quantum by exact Hc.
    set (m := quantum_coeff c e).
    pose proof (ndigits_le_iff m 28 ltac:(lia)) as Hiff.
    pose proof (ndigits_pos m) as Hpm.
    unfold adjusted, Emax, prec.
    destruct (Z.of_N m <? 10 ^ 28) eqn:E3.
    + apply Z.ltb_lt in E3. apply Hiff in E3.
      destruct (999999 <? _) eqn:E4; [apply Z.ltb_lt in E4; lia|].
      destruct (28 <? ndigits m) eqn:E5; [apply Z.ltb_lt in E5; lia|].
      destruct (N.eq_dec m 0) as [Em|Hm].
      * rewrite Em. apply fix_zero. cbv; split; discriminate.
      * apply fix_id; try assumption; cbv; discriminate.
    + apply Z.ltb_ge in E3.
      assert (28 < ndigits m) by (destruct (Z.le_gt_cases (ndigits m) 28) as [L|G];
                                   [apply Hiff in L; lia|exact G]).
      destruct (999999 <? _); [reflexivity|].
      destruct (28 <? ndigits m) eqn:E5; [reflexivity|apply Z.ltb_ge in E5; lia].
Qed.

Lemma le_zero (s : bool) (m : N) (e : Z) :
  le (Finite s m e) (of_int 0) = Ok ((m =? 0)%N || s).
Proof.
  unfold le, of_int, _cmp. cbn [is_nan orb Z.abs_N Z.ltb Z.compare N.eqb].
  destruct (m =? 0)%N; [reflexivity|].
  destruct s; reflexivity.
Qed.

(** The parser on a string that denotes a finite decimal. *)
Lemma parse_finite_cases (raw : string) (s : bool) (c : N) (e : Z) :
  of_string raw = Some (Finite s c e) ->
  _parse_amount_to_cents (Some raw) =
  if Z.of_N (quantum_coeff c e) <? 10 ^ 28 then
    if (quantum_coeff c e =? 0)%N || s
    then Raise (ValueError "Amount must be greater than zero.")
    else Ok (Z.of_N (quantum_coeff c e))
  else Raise (ValueError "Invalid amount.").
Proof.
  intros H. unfold _parse_amount_to_cents, new. rewrite H.
  change (of_string "0.01") with (Some (Finite false 1 (-2))).
  cbn [bind]. rewrite quantize_cents.
  set (m := quantum_coeff c e).
  destruct (Z.of_N m <? 10 ^ 28) eqn:E; [|reflexivity].
  rewrite le_zero. cbn [bind].
  destruct (m =? 0)%N eqn:Em; [reflexivity|].
  destruct s; [reflexivity|]. cbn [orb].
  apply N.eqb_neq in Em. apply Z.ltb_lt in E.
  apply mul_100_to_int; [lia|].
  now apply ndigits_le_iff.
Qed.

(** The same in terms of the number the string denotes. *)
Lemma parse_finite_spec (raw : string) (s : bool) (c : N) (e : Z) :
  of_string raw = Some (Finite s c e) ->
  (0 < cents_of s c e < 10 ^ 28 ->
   _parse_amount_to_cents (Some raw) = Ok (cents_of s c e)) /\
  (cents_of s c e <= 0 ->
   _parse_amount_to_cents (Some raw) =
     Raise (ValueError "Amount must be greater than zero.") \/
   _parse_amount_to_cents (Some raw) = Raise (ValueError "Invalid amount.")) /\
  (10 ^ 28 <= cents_of s c e ->
   _parse_amount_to_cents (Some raw) = Raise (ValueError "Invalid amount.")).
Proof.
  intros H. rewrite (parse_finite_cases _ _ _ _ H).
  destruct s.
  - pose proof (cents_of_negative c e) as Hneg.
    repeat split; intros Hr; try lia.
    rewrite orb_true_r. destruct (_ <? _); auto.
  - rewrite cents_of_positive, orb_false_r.
    set (m := quantum_coeff c e).
    repeat split; intros Hr.
    + destruct (Z.of_N m <? 10 ^ 28) eqn:E; [|apply Z.ltb_ge in E; lia].
      destruct (m =? 0)%N eqn:Em; [apply N.eqb_eq in Em; lia|reflexivity].
    + assert (Em : m = 0%N) by lia. rewrite Em. left. reflexivity.
    + destruct (Z.of_N m <? 10 ^ 28) eqn:E; [apply Z.ltb_lt in E; lia|reflexivity].
Qed.

(** ** Division by 100 and the two-place format *)


Lemma str_nonempty (n : N) : str n <> [].
Proof.
  pose proof (ndigits_pos n) as H. unfold ndigits in H.
  destruct (str n); [simpl in H; lia|discriminate].
Qed.

Lemma strip_zeros_pow (j : nat) :
  forall (fuel : nat) (m : N) (e : Z),
    e + Z.of_nat j <= 0 ->
    strip_zeros (j + fuel) (m * 10 ^ N.of_nat j) e 0 =
    strip_zeros fuel m (e + Z.of_nat j) 0.
Proof.
  induction j as [|j IH]; intros fuel m e He.
  - change (10 ^ N.of_nat 0)%N with 1%N. rewrite N.mul_1_r.
    simpl. f_equal. lia.
  - cbn [Nat.add strip_zeros].
    assert (E : (m * 10 ^ N.of_nat (S j) = m * 10 ^ N.of_nat j * 10)%N).
    { rewrite Nat2N.inj_succ, N.pow_succ_r'. lia. }
    rewrite E, N.Div0.mod_mul, N.div_mul by discriminate.
    assert (L : (e <? 0) = true) by (apply Z.ltb_lt; lia).
    rewrite L. cbn [andb N.eqb].
    rewrite IH by lia. f_equal. lia.
Qed.

Lemma strip_zeros_two (n : N) :
  n <> 0%N ->
  exists c' e', strip_zeros 2 n (-2) 0 = (c', e') /\
    c' <> 0%N /\ -2 <= e' <= 0 /\ (c' * 10 ^ Z.to_N (e' + 2) = n)%N /\ (c' <= n)%N.
Proof.
  intros Hn. cbn [strip_zeros Z.ltb Z.compare andb Z.add].
  destruct (n mod 10 =? 0)%N eqn:E1.
  - apply N.eqb_eq in E1.
    pose proof (N.Div0.div_mod n 10) as D1. rewrite E1, N.add_0_r in D1.
    cbn [Z.add Z.pos_sub Pos.pred_double Z.ltb Z.compare andb Z.opp].
    destruct ((n / 10) mod 10 =? 0)%N eqn:E2.
    + apply N.eqb_eq in E2.
      pose proof (N.Div0.div_mod (n / 10) 10) as D2. rewrite E2, N.add_0_r in D2.
      exists (n / 10 / 10)%N, 0.
      change (10 ^ Z.to_N (0 + 2))%N with 100%N.
      repeat split; try reflexivity; lia.
    + apply N.eqb_neq in E2. exists (n / 10)%N, (-1).
      change (10 ^ Z.to_N (-1 + 2))%N with 10%N.
      repeat split; try reflexivity; lia.
  - exists n, (-2).
    change (10 ^ Z.to_N (-2 + 2))%N with 1%N.
    repeat split; try reflexivity; lia.
Qed.

Lemma ndigits_mono (a b : N) : (a <= b)%N -> ndigits a <= ndigits b.
Proof.
  intros H. pose proof (ndigits_pos b) as Hb.
  apply (ndigits_le_iff a (ndigits b) Hb).
  destruct (N.eq_dec b 0) as [->|Hnz].
  - assert (a = 0%N) by lia. subst a. reflexivity.
  - destruct (ndigits_bounds b ltac:(lia)). lia.
Qed.

(** Dividing an amount of at most 28 digits by 100 is exact; formatting
    the quotient to two places restores the coefficient. *)
Lemma truediv_100 (n : N) :
  n <> 0%N -> Z.of_N n < 10 ^ 28 ->
  exists c' e', truediv (of_int (Z.of_N n)) (Finite false 100 0) = Ok (Finite false c' e') /\
    c' <> 0%N /\ -2 <= e' <= 0 /\ (c' * 10 ^ Z.to_N (e' + 2) = n)%N.
Proof.
  intros Hn Hlt.
  assert (Hd : ndigits n <= 28) by now apply ndigits_le_iff.
  pose proof (ndigits_pos n) as Hp.
  unfold of_int. rewrite Zabs2N.id.
  assert (Es : (Z.of_N n <? 0) = false) by (apply Z.ltb_ge; lia).
  rewrite Es. unfold truediv. cbn [_check_nans sign_of xorb N.eqb].
  pose proof Hn as Hn'. apply N.eqb_neq in Hn'. rewrite Hn'.
  change (ndigits 100) with 3. unfold prec.
  set (shift := 3 - ndigits n + 28 + 1).
  assert (Hs : 4 <= shift) by (unfold shift; lia).
  assert (L : (0 <=? shift) = true) by (apply Z.leb_le; lia).
  rewrite L.
  set (j := Z.to_nat (shift - 2)).
  assert (Ep : (n * 10 ^ Z.to_N shift = n * 10 ^ N.of_nat j * 100)%N).
  { replace (Z.to_N shift) with (N.of_nat j + 2)%N by (unfold j; lia).
    rewrite N.pow_add_r. change (10 ^ 2)%N with 100%N. lia. }
  rewrite Ep, N.Div0.mod_mul, N.div_mul by discriminate.
  cbn [N.eqb].
  replace (Z.to_nat (0 - 0 - (0 - 0 - shift))) with (j + 2)%nat by (unfold j; lia).
  rewrite strip_zeros_pow by (unfold j; lia).
  replace (0 - 0 - shift + Z.of_nat j) with (-2) by (unfold j; lia).
  destruct (strip_zeros_two n Hn) as (c' & e' & E & Hc & He & Hv & Hle).
  rewrite E. exists c', e'. repeat split; try assumption; try lia.
  apply fix_id; try assumption; try lia.
  - pose proof (ndigits_mono _ _ Hle). unfold prec. lia.
  - unfold Etiny, Emin, prec. lia.
Qed.

Lemma str_two_digits (n : N) :
  (10 <= n)%N ->
  str n = (match (n / 100)%N with 0%N => [] | _ => str (n / 100) end
           ++ [digit_char ((n / 10) mod 10); digit_char (n mod 10)])%list.
Proof.
  intros Hn. rewrite str_step by exact Hn.
  destruct (N.lt_ge_cases (n / 10) 10) as [H|H].
  - rewrite str_small by exact H.
    assert (E : (n / 100 = 0)%N).
    { change 100%N with (10 * 10)%N. rewrite <- N.Div0.div_div. now apply N.div_small. }
    rewrite E, (N.mod_small (n / 10) 10) by exact H. reflexivity.
  - rewrite str_step by exact H. rewrite N.Div0.div_div. change (10 * 10)%N with 100%N.
    rewrite <- app_assoc. cbn [app].
    destruct (n / 100)%N eqn:E; [|reflexivity].
    change 100%N with (10 * 10)%N in E. rewrite <- N.Div0.div_div in E.
    apply N.div_small_iff in E; [lia|discriminate].
Qed.

Lemma format_2f_cents (n : N) :
  string_of_list_ascii (format_2f (Finite false n (-2))) = render_cents n.
Proof.
  unfold render_cents. f_equal. unfold format_2f.
  destruct (N.eq_dec n 0) as [->|Hn]; [reflexivity|].
  rewrite rescale_exact by (assumption || lia).
  change (10 ^ Z.to_N (-2 - -2))%N with 1%N. rewrite N.mul_1_r.
  cbn [app].
  destruct (N.lt_ge_cases n 10) as [H|H].
  - rewrite str_small by exact H. cbn [length Nat.add Z.of_nat].
    assert (E1 : (n / 100 = 0)%N) by (apply N.div_small; lia).
    assert (E2 : (n / 10 = 0)%N) by (apply N.div_small; lia).
    rewrite E1, E2, (N.mod_small n 10) by exact H. reflexivity.
  - rewrite (str_two_digits n H).
    destruct (n / 100)%N eqn:E.
    + reflexivity.
    + rewrite <- E.
      set (hd := str (n / 100)).
      assert (Hne : hd <> []) by apply str_nonempty.
      rewrite length_app. cbn [length].
      replace (-2 + Z.of_nat (length hd + 2)) with (Z.of_nat (length hd)) by lia.
      assert (L1 : (Z.of_nat (length hd) <? 0) = false) by (apply Z.ltb_ge; lia).
      assert (L2 : (Z.of_nat (length hd + 2) <? Z.of_nat (length hd)) = false)
        by (apply Z.ltb_ge; lia).
      rewrite L1, L2, Nat2Z.id.
      rewrite firstn_app, firstn_all, Nat.sub_diag. cbn [firstn]. rewrite app_nil_r.
      rewrite skipn_app, skipn_all, Nat.sub_diag. cbn [skipn app].
      destruct hd; [congruence|reflexivity].
Qed.

Lemma format_amount_cents (n : N) :
  Z.of_N n < 10 ^ 28 ->
  _format_amount_from_cents (Z.of_N n) = Ok (render_cents n).
Proof.
  intros Hlt. unfold _format_amount_from_cents.
  destruct (N.eq_dec n 0) as [->|Hn]; [reflexivity|].
  destruct (truediv_100 n Hn Hlt) as (c' & e' & E & Hc & He & Hv).
  rewrite E. cbn [bind]. f_equal.
  rewrite <- format_2f_cents.
  f_equal. unfold format_2f.
  rewrite !rescale_exact by (assumption || lia).
  change (10 ^ Z.to_N (-2 - -2))%N with 1%N. rewrite N.mul_1_r.
  replace (e' - -2) with (e' + 2) by lia. rewrite Hv. reflexivity.
Qed.

(** ** Classification of parser outcomes *)

Lemma round_half_even_tie (k : Z) :
  round_half_even (inject_Z k + (1 # 2)) = if Z.even k then k else k + 1.
Proof.
  assert (E : (inject_Z k + (1 # 2) == (2 * k + 1) # 2)%Q).
  { unfold Qeq, Qplus, inject_Z. cbn [Qnum Qden]. lia. }
  rewrite (round_half_even_comp _ _ E), round_half_even_frac.
  assert (Em : (2 * k + 1) mod 2 = 1).
  { rewrite Z.add_comm, Z.mul_comm, Z.mod_add by lia. reflexivity. }
  assert (Ed : (2 * k + 1) / 2 = k).
  { rewrite Z.add_comm, Z.mul_comm, Z.div_add by lia. reflexivity. }
  rewrite Em, Ed. reflexivity.
Qed.

(** What the parser does with each kind of input. *)
Lemma parse_special_cases (raw : string) :
  match of_string raw with
  | None | Some (Infinity _) | Some (NaN _ true _) =>
      _parse_amount_to_cents (Some raw) = Raise (ValueError "Invalid amount.")
  | Some (NaN _ false _) =>
      _parse_amount_to_cents (Some raw) = Raise InvalidOperation
  | Some (Finite _ _ _) => True
  end.
Proof.
  unfold _parse_amount_to_cents, new.
  destruct (of_string raw) as [[s c e|s|s [|] d]|]; try reflexivity; exact I.
Qed.

Lemma parse_absent : _parse_amount_to_cents None = Raise (ValueError "Invalid amount.").
Proof. reflexivity. Qed.

Lemma parse_ok_range (raw : option string) (cents : Z) :
  _parse_amount_to_cents raw = Ok cents -> 0 < cents < 10 ^ 28.
Proof.
  destruct raw as [raw|]; [|discriminate].
  pose proof (parse_special_cases raw) as Hs.
  destruct (of_string raw) as [[s c e|s|s [|] d]|] eqn:E;
    try (rewrite Hs; discriminate).
  rewrite (parse_finite_cases _ _ _ _ E).
  destruct (_ <? _)%Z eqn:L; [|discriminate].
  destruct (_ =? _)%N eqn:Z0; [discriminate|].
  destruct s; [discriminate|]. cbn [orb].
  intros [= <-]. apply Z.ltb_lt in L. apply N.eqb_neq in Z0. lia.
Qed.

Lemma parse_raises (raw : option string) (e : exn) :
  _parse_amount_to_cents raw = Raise e ->
  e = ValueError "Invalid amount." \/
  e = ValueError "Amount must be greater than zero." \/
  e = InvalidOperation.
Proof.
  destruct raw as [raw|]; [|intros [= <-]; auto].
  pose proof (parse_special_cases raw) as Hs.
  destruct (of_string raw) as [[s c e'|s|s [|] d]|] eqn:E;
    try (rewrite Hs; intros [= <-]; auto).
  rewrite (parse_finite_cases _ _ _ _ E).
  destruct (_ <? _)%Z; [|intros [= <-]; auto].
  destruct (_ || _); [intros [= <-]; auto|discriminate].
Qed.

Lemma format_parsed (raw : option string) (cents : Z) :
  _parse_amount_to_cents raw = Ok cents ->
  _format_amount_from_cents cents = Ok (render_cents (Z.to_N cents)).
Proof.
  intros H. apply parse_ok_range in H.
  rewrite <- (Z2N.id cents) at 1 by lia.
  apply format_amount_cents. rewrite Z2N.id; lia.
Qed.

(** ** Rejections of the parser *)

(** A negative finite number never passes: it is out of range for
    [quantize] or it compares below zero. *)
Lemma parse_negative (raw : string) (c : N) (e : Z) :
  of_string raw = Some (Finite true c e) ->
  exists msg, _parse_amount_to_cents (Some raw) = Raise (ValueError msg).
Proof.
  intros H. rewrite (parse_finite_cases _ _ _ _ H), orb_true_r.
  destruct (_ <? _)%Z; eauto.
Qed.

(** The inputs that are turned into [ValueError]: an absent amount, a
    string outside the grammar of [Decimal] (the empty string among
    them), an infinity, a signaling NaN, and a finite number whose
    rounded cents are not positive. *)
Lemma parse_rejections :
  _parse_amount_to_cents None = Raise (ValueError "Invalid amount.") /\
  _parse_amount_to_cents (Some "") = Raise (ValueError "Invalid amount.") /\
  _parse_amount_to_cents (Some "abc") = Raise (ValueError "Invalid amount.") /\
  _parse_amount_to_cents (Some "0")
    = Raise (ValueError "Amount must be greater than zero.") /\
  (forall raw, of_string raw = None ->
     _parse_amount_to_cents (Some raw) = Raise (ValueError "Invalid amount.")) /\
  (forall raw s c e, of_string raw = Some (Finite s c e) -> cents_of s c e <= 0 ->
     exists msg, _parse_amount_to_cents (Some raw) = Raise (ValueError msg)).
Proof.
  repeat split; try reflexivity.
  - intros raw H. pose proof (parse_special_cases raw) as Hs. now rewrite H in Hs.
  - intros raw s c e H Hr.
    destruct (parse_finite_spec raw s c e H) as (_ & Hnonpos & _).
    destruct (Hnonpos Hr) as [E|E]; rewrite E; eauto.
Qed.

(** * The claims *)

(** C1, amended.  For every string that Decimal reads as a finite number,
    [_parse_amount_to_cents] returns the value rounded to two fractional
    digits and multiplied by 100, as an integer, provided that integer is
    strictly positive and below 10^28 (the 28 digits of the context
    precision); from 10^28 on the amount is rejected as invalid.  "10"
    gives 1000, "9.999" gives 1000, and "0.004" rounds to 0 and is
    rejected. *)
Theorem parse_returns_rounded_cents :
  (forall raw s c e,
     of_string raw = Some (Finite s c e) ->
     0 < cents_of s c e < 10 ^ 28 ->
     _parse_amount_to_cents (Some raw) = Ok (cents_of s c e)) /\
  (forall raw s c e,
     of_string raw = Some (Finite s c e) ->
     10 ^ 28 <= cents_of s c e ->
     _parse_amount_to_cents (Some raw) = Raise (ValueError "Invalid amount.")) /\
  _parse_amount_to_cents (Some "10") = Ok 1000 /\
  _parse_amount_to_cents (Some "9.999") = Ok 1000 /\
  _parse_amount_to_cents (Some "0.004")
    = Raise (ValueError "Amount must be greater than zero.").
Proof.
  split; [|split; [|repeat split; reflexivity]].
  - intros raw s c e H. apply (parse_finite_spec raw s c e H).
  - intros raw s c e H. apply (parse_finite_spec raw s c e H).
Qed.

Lemma parse_returns_rounded_cents_witness :
  _parse_amount_to_cents (Some "12.345") = Ok (cents_of false 12345 (-3)).
Proof.
  apply (proj1 parse_returns_rounded_cents "12.345" false 12345%N (-3)).
  - reflexivity.
  - split; reflexivity.
Defined.

(** C1 as stated fails: 10^26 parses as a decimal number and its rounded
    value is strictly positive, yet the amount is rejected. *)
Lemma parse_rejects_29_digit_cents :
  of_string "100000000000000000000000000" = Some (Finite false (10 ^ 26) 0) /\
  0 < cents_of false (10 ^ 26) 0 /\
  _parse_amount_to_cents (Some "100000000000000000000000000")
    = Raise (ValueError "Invalid amount.") /\
  _parse_amount_to_cents (Some "100000000000000000000000000")
    <> Ok (cents_of false (10 ^ 26) 0).
Proof.
  repeat split; try (vm_compute; reflexivity).
  vm_compute. discriminate.
Qed.

(** C2.  The code at the failing input: the quiet NaN literal passes the
    constructor and [quantize]; the comparison [amount <= 0], which is
    outside the [try], raises [InvalidOperation], so the parser does not
    answer with [ValueError] and the exception leaves the handler. *)
Theorem parse_quiet_nan_escapes :
  _parse_amount_to_cents (Some "NaN") = Raise InvalidOperation /\
  forall stripe pm email,
    truthy (api_key stripe) = true -> truthy pm = true ->
    create_payment_intent stripe
      {| r_amount := Some "NaN"; r_payment_method_id := pm; r_email := email |}
    = (Unhandled InvalidOperation, []).
Proof.
  split; [reflexivity|].
  intros stripe pm email Hk Hp.
  unfold create_payment_intent. cbn [r_amount r_payment_method_id r_email].
  rewrite Hk, Hp. reflexivity.
Qed.

Lemma parse_quiet_nan_escapes_witness :
  create_payment_intent
    {| api_key := Some "sk_test"; run := fun _ => RaisesOther "" |}
    {| r_amount := Some "NaN"; r_payment_method_id := Some "pm_1"; r_email := None |}
  = (Unhandled InvalidOperation, []).
Proof.
  apply (proj2 parse_quiet_nan_escapes); reflexivity.
Defined.

(** C3.  [_status_from_card_error] answers "live" when the decline code
    is "incorrect_cvc" or "insufficient_funds" and "false" for every other
    code, "card_declined" and a missing code among them.  The decline
    code is [error.code], or [error.error.code] when that is empty. *)
Theorem status_from_card_error_spec :
  (forall error,
     py_or (code error) (error_code error) = Some "incorrect_cvc" ->
     _status_from_card_error error = "live") /\
  (forall error,
     py_or (code error) (error_code error) = Some "insufficient_funds" ->
     _status_from_card_error error = "live") /\
  (forall error,
     py_or (code error) (error_code error) <> Some "incorrect_cvc" ->
     py_or (code error) (error_code error) <> Some "insufficient_funds" ->
     _status_from_card_error error = "false") /\
  (forall message,
     _status_from_card_error
       {| code := Some "card_declined"; error_code := None; user_message := message |}
     = "false") /\
  (forall message,
     _status_from_card_error
       {| code := None; error_code := None; user_message := message |}
     = "false").
Proof.
  repeat split.
  - intros error H. unfold _status_from_card_error. rewrite H. reflexivity.
  - intros error H. unfold _status_from_card_error. rewrite H. reflexivity.
  - intros error H1 H2. unfold _status_from_card_error.
    destruct (py_or (code error) (error_code error)) as [c|]; [|reflexivity].
    cbn [py_eq].
    destruct (String.eqb_spec c "incorrect_cvc") as [->|_]; [congruence|].
    destruct (String.eqb_spec c "insufficient_funds") as [->|_]; [congruence|].
    reflexivity.
Qed.

Lemma status_from_card_error_spec_witness :
  _status_from_card_error
    {| code := None; error_code := Some "incorrect_cvc"; user_message := None |} = "live" /\
  _status_from_card_error
    {| code := Some "expired_card"; error_code := Some "incorrect_cvc"; user_message := None |}
  = "false".
Proof.
  split.
  - apply (proj1 status_from_card_error_spec). reflexivity.
  - apply (proj1 (proj2 (proj2 status_from_card_error_spec))); discriminate.
Defined.

(** C4.  [create_payment_intent] checks the secret key first, then the
    payment method id, then the amount: without a key the answer is the
    500 configuration error whatever the other fields are, and with a key
    but without a payment method id it is a 400 whatever the amount is.
    Neither case reaches the processor. *)
Theorem create_checks_in_order :
  (forall stripe data,
     truthy (api_key stripe) = false ->
     create_payment_intent stripe data
     = (Response [("error", JString "Stripe secret key not set.")] 500, [])) /\
  (forall stripe data,
     truthy (api_key stripe) = true ->
     truthy (r_payment_method_id data) = false ->
     create_payment_intent stripe data
     = (Response [("error", JString "Payment method is required.")] 400, [])).
Proof.
  split.
  - intros stripe data Hk. unfold create_payment_intent. now rewrite Hk.
  - intros stripe data Hk Hp. unfold create_payment_intent. now rewrite Hk, Hp.
Qed.

Lemma create_checks_in_order_witness :
  create_payment_intent
    {| api_key := None; run := fun _ => RaisesOther "" |}
    {| r_amount := Some "abc"; r_payment_method_id := None; r_email := None |}
  = (Response [("error", JString "Stripe secret key not set.")] 500, []) /\
  create_payment_intent
    {| api_key := Some "sk_test"; run := fun _ => RaisesOther "" |}
    {| r_amount := Some "abc"; r_payment_method_id := Some ""; r_email := None |}
  = (Response [("error", JString "Payment method is required.")] 400, []).
Proof.
  split.
  - apply (proj1 create_checks_in_order). reflexivity.
  - apply (proj2 create_checks_in_order); reflexivity.
Defined.

(** The validation branch of [create_payment_intent]: when the key and
    the payment method id are present and [_parse_amount_to_cents] raises
    a [ValueError], the answer is 400 with status "false" and the message
    of that error.  No call to the processor is made then, nor for any
    other exception of the parser. *)
Theorem create_invalid_amount :
  forall stripe data,
    truthy (api_key stripe) = true ->
    truthy (r_payment_method_id data) = true ->
    (forall msg,
       _parse_amount_to_cents (r_amount data) = Raise (ValueError msg) ->
       create_payment_intent stripe data
       = (Response [("status", JString "false"); ("message", JString msg)] 400, [])) /\
    (forall e,
       _parse_amount_to_cents (r_amount data) = Raise e ->
       snd (create_payment_intent stripe data) = []).
Proof.
  intros stripe data Hk Hp. split.
  - intros msg Ha. unfold create_payment_intent. now rewrite Hk, Hp, Ha.
  - intros e Ha. unfold create_payment_intent. rewrite Hk, Hp, Ha.
    destruct e; reflexivity.
Qed.

Lemma create_invalid_amount_witness :
  create_payment_intent
    {| api_key := Some "sk_test"; run := fun _ => RaisesOther "" |}
    {| r_amount := Some "0.004"; r_payment_method_id := Some "pm_1"; r_email := None |}
  = (Response [("status", JString "false");
               ("message", JString "Amount must be greater than zero.")] 400, []).
Proof.
  exact (proj1 (create_invalid_amount
                  {| api_key := Some "sk_test"; run := fun _ => RaisesOther "" |}
                  {| r_amount := Some "0.004"; r_payment_method_id := Some "pm_1";
                     r_email := None |}
                  eq_refl eq_refl)
               "Amount must be greater than zero." eq_refl).
Defined.

(** C5.  The code at the failing input.  With the key and the payment
    method id present, the amount "NaN" fails in [_parse_amount_to_cents],
    but with [InvalidOperation] and not with [ValueError]; the handler
    then gives no 400 answer with status "false": the exception leaves
    it.  The processor is not called. *)
Theorem create_nan_amount_is_not_answered :
  forall stripe pm email,
    truthy (api_key stripe) = true -> truthy pm = true ->
    _parse_amount_to_cents (Some "NaN") = Raise InvalidOperation /\
    create_payment_intent stripe
      {| r_amount := Some "NaN"; r_payment_method_id := pm; r_email := email |}
    = (Unhandled InvalidOperation, []) /\
    (forall msg,
       fst (create_payment_intent stripe
              {| r_amount := Some "NaN"; r_payment_method_id := pm; r_email := email |})
       <> Response [("status", JString "false"); ("message", JString msg)] 400).
Proof.
  intros stripe pm email Hk Hp.
  assert (E : create_payment_intent stripe
                {| r_amount := Some "NaN"; r_payment_method_id := pm; r_email := email |}
              = (Unhandled InvalidOperation, [])).
  { unfold create_payment_intent. cbn [r_amount r_payment_method_id r_email].
    rewrite Hk, Hp. reflexivity. }
  split; [reflexivity|]. split; [exact E|].
  intros msg. rewrite E. discriminate.
Qed.

Lemma create_nan_amount_is_not_answered_witness :
  create_payment_intent
    {| api_key := Some "sk_test"; run := fun _ => RaisesOther "" |}
    {| r_amount := Some "NaN"; r_payment_method_id := Some "pm_test";
       r_email := Some "a@b.com" |}
  = (Unhandled InvalidOperation, []).
Proof.
  exact (proj1 (proj2 (create_nan_amount_is_not_answered
                         {| api_key := Some "sk_test"; run := fun _ => RaisesOther "" |}
                         (Some "pm_test") (Some "a@b.com") eq_refl eq_refl))).
Defined.

(** C6.  When the processor call raises a card error, both handlers
    answer 402 with the status that [_status_from_card_error] gives and
    with the processor's user message unchanged; when it raises anything
    else they answer 500 with a fixed message in which nothing of the
    exception appears. *)
Theorem processor_errors_are_translated :
  (forall stripe data cents exc,
     truthy (api_key stripe) = true ->
     truthy (r_payment_method_id data) = true ->
     _parse_amount_to_cents (r_amount data) = Ok cents ->
     run stripe (create_call cents data) = RaisesCardError exc ->
     fst (create_payment_intent stripe data)
     = Response [("status", JString (_status_from_card_error exc));
                 ("message", jsonify_field (user_message exc))] 402) /\
  (forall stripe data cents detail,
     truthy (api_key stripe) = true ->
     truthy (r_payment_method_id data) = true ->
     _parse_amount_to_cents (r_amount data) = Ok cents ->
     run stripe (create_call cents data) = RaisesOther detail ->
     fst (create_payment_intent stripe data)
     = Response [("status", JString "false");
                 ("message", JString "Unable to create payment intent.")] 500) /\
  (forall stripe data exc,
     truthy (r_payment_intent_id data) = true ->
     run stripe (PaymentIntent_confirm (r_payment_intent_id data)) = RaisesCardError exc ->
     fst (confirm_payment_intent stripe data)
     = Response [("status", JString (_status_from_card_error exc));
                 ("message", jsonify_field (user_message exc))] 402) /\
  (forall stripe data detail,
     truthy (r_payment_intent_id data) = true ->
     run stripe (PaymentIntent_confirm (r_payment_intent_id data)) = RaisesOther detail ->
     fst (confirm_payment_intent stripe data)
     = Response [("status", JString "false");
                 ("message", JString "Unable to confirm payment intent.")] 500).
Proof.
  repeat split.
  - intros stripe data cents exc Hk Hp Ha Hr.
    unfold create_payment_intent. rewrite Hk, Hp, Ha. cbn [negb fst].
    fold (create_call cents data). now rewrite Hr.
  - intros stripe data cents detail Hk Hp Ha Hr.
    unfold create_payment_intent. rewrite Hk, Hp, Ha. cbn [negb fst].
    fold (create_call cents data). now rewrite Hr.
  - intros stripe data exc Hi Hr.
    unfold confirm_payment_intent. rewrite Hi. cbn [negb fst]. now rewrite Hr.
  - intros stripe data detail Hi Hr.
    unfold confirm_payment_intent. rewrite Hi. cbn [negb fst]. now rewrite Hr.
Qed.

Lemma processor_errors_are_translated_witness :
  fst (create_payment_intent
         {| api_key := Some "sk_test";
            run := fun _ => RaisesCardError
                     {| code := Some "insufficient_funds"; error_code := None;
                        user_message := Some "Your card has insufficient funds." |} |}
         {| r_amount := Some "25.00"; r_payment_method_id := Some "pm_test";
            r_email := Some "a@b.com" |})
  = Response [("status", JString "live");
              ("message", JString "Your card has insufficient funds.")] 402 /\
  fst (confirm_payment_intent
         {| api_key := Some "sk_test"; run := fun _ => RaisesOther "connection reset" |}
         {| r_payment_intent_id := Some "pi_1" |})
  = Response [("status", JString "false");
              ("message", JString "Unable to confirm payment intent.")] 500.
Proof.
  split.
  - exact (proj1 processor_errors_are_translated
             {| api_key := Some "sk_test";
                run := fun _ => RaisesCardError
                         {| code := Some "insufficient_funds"; error_code := None;
                            user_message := Some "Your card has insufficient funds." |} |}
             {| r_amount := Some "25.00"; r_payment_method_id := Some "pm_test";
                r_email := Some "a@b.com" |}
             2500
             {| code := Some "insufficient_funds"; error_code := None;
                user_message := Some "Your card has insufficient funds." |}
             eq_refl eq_refl eq_refl eq_refl).
  - exact (proj2 (proj2 (proj2 processor_errors_are_translated))
             {| api_key := Some "sk_test"; run := fun _ => RaisesOther "connection reset" |}
             {| r_payment_intent_id := Some "pi_1" |}
             "connection reset" eq_refl eq_refl).
Defined.

(** C7.  When the processor returns an intent whose status is not
    "requires_action", both handlers answer 200 with status "true", the
    intent's id and client secret, and a message that ends with the
    formatted amount.  [create_payment_intent] formats the cents it parsed
    from the request; [confirm_payment_intent] formats [intent.amount] as
    the processor reports it (for a reported amount below 10^28). *)
Theorem success_reports_formatted_amount :
  (forall stripe data cents intent,
     truthy (api_key stripe) = true ->
     truthy (r_payment_method_id data) = true ->
     _parse_amount_to_cents (r_amount data) = Ok cents ->
     run stripe (create_call cents data) = Returns intent ->
     String.eqb (status intent) "requires_action" = false ->
     _format_amount_from_cents cents = Ok (render_cents (Z.to_N cents)) /\
     create_payment_intent stripe data
     = (Response
          [("status", JString "true");
           ("message", JString ("your donation sucessfull " ++ render_cents (Z.to_N cents)));
           ("payment_intent_id", jsonify_field (id intent));
           ("client_secret", jsonify_field (client_secret intent))] 200,
        [create_call cents data])) /\
  (forall stripe data intent,
     truthy (r_payment_intent_id data) = true ->
     run stripe (PaymentIntent_confirm (r_payment_intent_id data)) = Returns intent ->
     String.eqb (status intent) "requires_action" = false ->
     0 <= amount intent < 10 ^ 28 ->
     _format_amount_from_cents (amount intent)
       = Ok (render_cents (Z.to_N (amount intent))) /\
     confirm_payment_intent stripe data
     = (Response
          [("status", JString "true");
           ("message",
            JString ("your donation sucessfull " ++ render_cents (Z.to_N (amount intent))));
           ("payment_intent_id", jsonify_field (id intent));
           ("client_secret", jsonify_field (client_secret intent))] 200,
        [PaymentIntent_confirm (r_payment_intent_id data)])).
Proof.
  split.
  - intros stripe data cents intent Hk Hp Ha Hr Hs.
    pose proof (format_parsed _ _ Ha) as Hf.
    split; [exact Hf|].
    unfold create_payment_intent. rewrite Hk, Hp, Ha. cbn [negb].
    fold (create_call cents data). now rewrite Hr, Hs, Hf.
  - intros stripe data intent Hi Hr Hs Hrange.
    assert (Hf : _format_amount_from_cents (amount intent)
                 = Ok (render_cents (Z.to_N (amount intent)))).
    { rewrite <- (Z2N.id (amount intent)) at 1 by lia.
      apply format_amount_cents. rewrite Z2N.id; lia. }
    split; [exact Hf|].
    unfold confirm_payment_intent. rewrite Hi. cbn [negb]. now rewrite Hr, Hs, Hf.
Qed.

Lemma success_reports_formatted_amount_witness :
  create_payment_intent
    {| api_key := Some "sk_test";
       run := fun _ => Returns {| status := "succeeded"; id := Some "pi_1";
                                  client_secret := Some "secret_1"; amount := 2500 |} |}
    {| r_amount := Some "25.00"; r_payment_method_id := Some "pm_test";
       r_email := Some "a@b.com" |}
  = (Response
       [("status", JString "true");
        ("message", JString "your donation sucessfull 25.00");
        ("payment_intent_id", JString "pi_1");
        ("client_secret", JString "secret_1")] 200,
     [PaymentIntent_create
        {| p_amount := 2500; p_currency := "usd"; p_payment_method := Some "pm_test";
           p_receipt_email := Some "a@b.com"; p_confirm := true |}]) /\
  confirm_payment_intent
    {| api_key := None;
       run := fun _ => Returns {| status := "succeeded"; id := Some "pi_1";
                                  client_secret := Some "secret_1"; amount := 1234 |} |}
    {| r_payment_intent_id := Some "pi_1" |}
  = (Response
       [("status", JString "true");
        ("message", JString "your donation sucessfull 12.34");
        ("payment_intent_id", JString "pi_1");
        ("client_secret", JString "secret_1")] 200,
     [PaymentIntent_confirm (Some "pi_1")]).
Proof.
  split.
  - exact (proj2 (proj1 success_reports_formatted_amount
             {| api_key := Some "sk_test";
                run := fun _ => Returns {| status := "succeeded"; id := Some "pi_1";
                                           client_secret := Some "secret_1";
                                           amount := 2500 |} |}
             {| r_amount := Some "25.00"; r_payment_method_id := Some "pm_test";
                r_email := Some "a@b.com" |}
             2500
             {| status := "succeeded"; id := Some "pi_1";
                client_secret := Some "secret_1"; amount := 2500 |}
             eq_refl eq_refl eq_refl eq_refl eq_refl)).
  - refine (proj2 (proj2 success_reports_formatted_amount
             {| api_key := None;
                run := fun _ => Returns {| status := "succeeded"; id := Some "pi_1";
                                           client_secret := Some "secret_1";
                                           amount := 1234 |} |}
             {| r_payment_intent_id := Some "pi_1" |}
             {| status := "succeeded"; id := Some "pi_1";
                client_secret := Some "secret_1"; amount := 1234 |}
             eq_refl eq_refl eq_refl _)).
    cbn [amount]. split; [discriminate | reflexivity].
Defined.

(** C8, amended.  Round trip: for every string that denotes a number
    v > 0 with at most two fractional digits, so that 100 v is an integer
    n, and with n below 10^28, formatting the parsed cents gives v written
    with exactly two fractional digits; 1234 cents are shown as "12.34". *)
Theorem format_parse_round_trip :
  (forall raw s c e n,
     of_string raw = Some (Finite s c e) ->
     (inject_Z 100 * value s c e == inject_Z (Z.of_N n))%Q ->
     0 < Z.of_N n < 10 ^ 28 ->
     bind (_parse_amount_to_cents (Some raw)) _format_amount_from_cents
     = Ok (render_cents n)) /\
  _format_amount_from_cents 1234 = Ok "12.34".
Proof.
  split; [|reflexivity].
  intros raw s c e n H Hv Hn.
  assert (Ec : cents_of s c e = Z.of_N n).
  { unfold cents_of. rewrite (round_half_even_comp _ _ Hv). apply round_half_even_Z. }
  destruct (parse_finite_spec raw s c e H) as (Hok & _).
  rewrite Hok by (rewrite Ec; exact Hn).
  cbn [bind]. rewrite Ec. apply format_amount_cents. lia.
Qed.

Lemma format_parse_round_trip_witness :
  bind (_parse_amount_to_cents (Some " +1_2.5e0 ")) _format_amount_from_cents
  = Ok "12.50".
Proof.
  apply (proj1 format_parse_round_trip " +1_2.5e0 " false 125%N (-1) 1250%N).
  - reflexivity.
  - reflexivity.
  - split; reflexivity.
Defined.

(** C8 as stated fails: 10^26 has an exact two-place representation and
    is positive, but it does not survive the parser, so nothing is
    formatted. *)
Lemma round_trip_fails_for_29_digit_cents :
  of_string "100000000000000000000000000" = Some (Finite false (10 ^ 26) 0) /\
  (inject_Z 100 * value false (10 ^ 26) 0 == inject_Z (Z.of_N (10 ^ 28)))%Q /\
  bind (_parse_amount_to_cents (Some "100000000000000000000000000"))
       _format_amount_from_cents
  = Raise (ValueError "Invalid amount.") /\
  bind (_parse_amount_to_cents (Some "100000000000000000000000000"))
       _format_amount_from_cents
  <> Ok (render_cents (10 ^ 28)).
Proof.
  repeat split; try (vm_compute; reflexivity).
  vm_compute. discriminate.
Qed.

(** C9.  [confirm_payment_intent] does not look at the secret key: with
    a payment intent id and no key configured it still calls the
    processor's confirm operation and never answers with the
    configuration error, and its result is the one it gives with a key;
    [create_payment_intent] in the same situation stops before any call. *)
Theorem confirm_ignores_missing_key :
  forall stripe data,
    truthy (api_key stripe) = false ->
    truthy (r_payment_intent_id data) = true ->
    snd (confirm_payment_intent stripe data)
      = [PaymentIntent_confirm (r_payment_intent_id data)] /\
    fst (confirm_payment_intent stripe data)
      <> Response [("error", JString "Stripe secret key not set.")] 500 /\
    (forall key,
       confirm_payment_intent stripe data
       = confirm_payment_intent {| api_key := key; run := run stripe |} data) /\
    (forall request, snd (create_payment_intent stripe request) = []).
Proof.
  intros stripe data Hk Hi. repeat split.
  - unfold confirm_payment_intent. now rewrite Hi.
  - unfold confirm_payment_intent. rewrite Hi. cbn [negb fst].
    destruct (run stripe _) as [intent|exc|detail]; try discriminate.
    destruct (String.eqb _ _); [discriminate|].
    destruct (_format_amount_from_cents _); discriminate.
  - intros request. unfold create_payment_intent. now rewrite Hk.
Qed.

Lemma confirm_ignores_missing_key_witness :
  snd (confirm_payment_intent
         {| api_key := None; run := fun _ => RaisesOther "no credentials" |}
         {| r_payment_intent_id := Some "pi_1" |})
  = [PaymentIntent_confirm (Some "pi_1")].
Proof.
  apply (confirm_ignores_missing_key
           {| api_key := None; run := fun _ => RaisesOther "no credentials" |}
           {| r_payment_intent_id := Some "pi_1" |}); reflexivity.
Defined.

(** C10.  Rounding is half-to-even: when 100 times the value of the
    string lies exactly halfway between the integers k and k + 1, the
    parser returns the even one of the two (if it is positive and below
    10^28) and rejects the amount when that even integer is 0.  "0.125"
    gives 12, "0.135" gives 14, and "0.005" rounds to 0 and is rejected. *)
Theorem parse_rounds_half_to_even :
  (forall raw s c e k,
     of_string raw = Some (Finite s c e) ->
     (inject_Z 100 * value s c e == inject_Z k + (1 # 2))%Q ->
     0 < (if Z.even k then k else k + 1) < 10 ^ 28 ->
     _parse_amount_to_cents (Some raw) = Ok (if Z.even k then k else k + 1)) /\
  (forall raw s c e,
     of_string raw = Some (Finite s c e) ->
     (inject_Z 100 * value s c e == inject_Z 0 + (1 # 2))%Q ->
     _parse_amount_to_cents (Some raw)
     = Raise (ValueError "Amount must be greater than zero.")) /\
  _parse_amount_to_cents (Some "0.125") = Ok 12 /\
  _parse_amount_to_cents (Some "0.135") = Ok 14 /\
  _parse_amount_to_cents (Some "0.005")
    = Raise (ValueError "Amount must be greater than zero.").
Proof.
  split; [|split; [|repeat split; reflexivity]].
  - intros raw s c e k H Hv Hr.
    assert (Ec : cents_of s c e = if Z.even k then k else k + 1).
    { unfold cents_of. rewrite (round_half_even_comp _ _ Hv). apply round_half_even_tie. }
    destruct (parse_finite_spec raw s c e H) as (Hok & _).
    rewrite <- Ec. apply Hok. now rewrite Ec.
  - intros raw s c e H Hv.
    assert (Ec : cents_of s c e = 0).
    { unfold cents_of. rewrite (round_half_even_comp _ _ Hv). apply round_half_even_tie. }
    rewrite (parse_finite_cases _ _ _ _ H).
    destruct s.
    + rewrite orb_true_r.
      destruct (_ <? _)%Z eqn:L; [reflexivity|].
      (* a negative number cannot have a positive half as its hundredfold *)
      exfalso.
      assert (Hneg : (inject_Z 100 * value true c e <= 0)%Q).
      { unfold value, signed.
        assert (Hpow : (0 < inject_Z 10 ^ e)%Q) by (apply Qpower_0_lt; reflexivity).
        assert (Hc : (inject_Z (- Z.of_N c) <= 0)%Q)
          by (unfold Qle, inject_Z; cbn [Qnum Qden]; lia).
        setoid_replace 0%Q with (inject_Z 100 * (0 * inject_Z 10 ^ e))%Q by ring.
        apply Qmult_le_l; [reflexivity|].
        apply Qmult_le_compat_r; [exact Hc|]. now apply Qlt_le_weak. }
      rewrite Hv in Hneg. revert Hneg. apply Qlt_not_le. reflexivity.
    + rewrite cents_of_positive in Ec.
      assert (Em : quantum_coeff c e = 0%N) by lia.
      rewrite Em. reflexivity.
Qed.

Lemma parse_rounds_half_to_even_witness :
  _parse_amount_to_cents (Some "2.675") = Ok 268 /\
  _parse_amount_to_cents (Some "2.665") = Ok 266.
Proof.
  split.
  - apply (proj1 parse_rounds_half_to_even "2.675" false 2675%N (-3) 267).
    + reflexivity.
    + reflexivity.
    + split; reflexivity.
  - apply (proj1 parse_rounds_half_to_even "2.665" false 2665%N (-3) 266).
    + reflexivity.
    + reflexivity.
    + split; reflexivity.
Defined.

(** * Further properties of the code *)

(** ** More about rounding *)

Lemma Qfloor_bounds (x : Q) :
  (inject_Z (Qfloor x) <= x /\ x < inject_Z (Qfloor x) + 1)%Q.
Proof.
  split; [apply Qfloor_le|].
  pose proof (Qlt_floor x) as H. rewrite inject_Z_plus in H. exact H.
Qed.

Lemma round_half_even_near (x : Q) :
  (inject_Z (round_half_even x) - (1 # 2) <= x
   /\ x <= inject_Z (round_half_even x) + (1 # 2))%Q.
Proof.
  unfold round_half_even.
  destruct (Qfloor_bounds x) as [Hlo Hhi].
  destruct (Qcompare_spec (x - inject_Z (Qfloor x)) (1 # 2)) as [E|L|G].
  - destruct (Z.even (Qfloor x)).
    + split; lra.
    + rewrite inject_Z_plus. change (inject_Z 1) with 1%Q. split; lra.
  - split; lra.
  - rewrite inject_Z_plus. change (inject_Z 1) with 1%Q. split; lra.
Qed.

Lemma round_half_even_floor (x : Q) :
  Qfloor x <= round_half_even x <= Qfloor x + 1.
Proof.
  unfold round_half_even.
  destruct (_ ?= _)%Q; [destruct (Z.even _)| |]; lia.
Qed.

Lemma round_half_even_mono (x y : Q) :
  (x <= y)%Q -> round_half_even x <= round_half_even y.
Proof.
  intros Hxy.
  pose proof (Qfloor_resp_le _ _ Hxy) as Hf.
  destruct (Z.eq_dec (Qfloor x) (Qfloor y)) as [E|N].
  - unfold round_half_even. rewrite E.
    assert (Hd : (x - inject_Z (Qfloor y) <= y - inject_Z (Qfloor y))%Q) by lra.
    destruct (Qcompare_spec (x - inject_Z (Qfloor y)) (1 # 2)) as [Ex|Lx|Gx];
      destruct (Qcompare_spec (y - inject_Z (Qfloor y)) (1 # 2)) as [Ey|Ly|Gy];
      try (destruct (Z.even (Qfloor y))); try lia; exfalso; lra.
  - pose proof (round_half_even_floor x). pose proof (round_half_even_floor y). lia.
Qed.

Lemma value_opp (c : N) (e : Z) : (value true c e == - value false c e)%Q.
Proof. unfold value, signed. rewrite inject_Z_opp. ring. Qed.

Lemma pow10_Q_pos (e : Z) : (0 < inject_Z 10 ^ e)%Q.
Proof. apply Qpower_0_lt. reflexivity. Qed.

Lemma value_nonneg (c : N) (e : Z) : (0 <= value false c e)%Q.
Proof.
  unfold value, signed. apply Qmult_le_0_compat.
  - unfold Qle, inject_Z. cbn [Qnum Qden]. lia.
  - apply Qlt_le_weak, pow10_Q_pos.
Qed.

Lemma value_zero (c : N) (e : Z) : (value false c e == 0)%Q -> c = 0%N.
Proof.
  unfold value, signed. intros H.
  apply Qmult_integral in H. destruct H as [H|H].
  - unfold Qeq, inject_Z in H. cbn [Qnum Qden] in H. lia.
  - pose proof (pow10_Q_pos e). lra.
Qed.

(** The coefficient that [quantize] computes is determined by the
    magnitude of the number. *)
Lemma quantum_coeff_value (c1 c2 : N) (e1 e2 : Z) :
  (value false c1 e1 == value false c2 e2)%Q ->
  quantum_coeff c1 e1 = quantum_coeff c2 e2.
Proof.
  intros H. apply N2Z.inj. rewrite <- !cents_of_positive.
  unfold cents_of. apply round_half_even_comp. now rewrite H.
Qed.

(** An accepted amount is the rounded hundredfold of the value. *)
Lemma parse_accepts (raw : string) (s : bool) (c : N) (e : Z) (cents : Z) :
  of_string raw = Some (Finite s c e) ->
  _parse_amount_to_cents (Some raw) = Ok cents ->
  s = false /\ cents = cents_of s c e /\ 0 < cents < 10 ^ 28.
Proof.
  intros H Hp. pose proof (parse_ok_range _ _ Hp) as Hr.
  rewrite (parse_finite_cases _ _ _ _ H) in Hp.
  destruct (_ <? _)%Z; [|discriminate].
  destruct (_ =? _)%N; [discriminate|].
  destruct s; [discriminate|]. cbn [orb] in Hp.
  injection Hp as <-. rewrite cents_of_positive. auto.
Qed.

(** ** Whitespace around the amount *)

Lemma list_ascii_of_string_app (a b : string) :
  list_ascii_of_string (a ++ b)
  = (list_ascii_of_string a ++ list_ascii_of_string b)%list.
Proof. induction a as [|c a IH]; simpl; [reflexivity|now rewrite IH]. Qed.

Lemma lstrip_spaces (ws l : list ascii) :
  forallb is_space ws = true -> lstrip (ws ++ l)%list = lstrip l.
Proof.
  induction ws as [|c ws IH]; simpl; [reflexivity|].
  intros H. apply andb_true_iff in H. destruct H as [Hc Hws].
  rewrite Hc. now apply IH.
Qed.

Lemma lstrip_app (l m : list ascii) :
  lstrip (l ++ m)%list
  = match lstrip l with [] => lstrip m | _ => (lstrip l ++ m)%list end.
Proof.
  induction l as [|c l IH]; simpl.
  - now destruct (lstrip m).
  - destruct (is_space c); [exact IH|reflexivity].
Qed.

Lemma strip_spaces (ws1 ws2 l : list ascii) :
  forallb is_space ws1 = true -> forallb is_space ws2 = true ->
  strip (ws1 ++ l ++ ws2)%list = strip l.
Proof.
  intros H1 H2. unfold strip, rstrip.
  rewrite (lstrip_spaces ws1 _ H1), lstrip_app.
  assert (Hrev : forallb is_space (rev ws2) = true).
  { rewrite forallb_forall in *. intros c Hc. apply H2. now apply in_rev. }
  destruct (lstrip l) as [|c l'] eqn:E.
  - rewrite <- (app_nil_r ws2), (lstrip_spaces ws2 [] H2). reflexivity.
  - rewrite rev_app_distr, (lstrip_spaces _ _ Hrev). reflexivity.
Qed.

Lemma parse_of_string (a b : string) :
  of_string a = of_string b ->
  _parse_amount_to_cents (Some a) = _parse_amount_to_cents (Some b).
Proof. intros H. unfold _parse_amount_to_cents, new. now rewrite H. Qed.

(** ** Reading back a formatted amount *)

Lemma digit_char_facts (d : N) :
  (d < 10)%N ->
  is_digit (digit_char d) = true /\ digit_val (digit_char d) = d /\
  is_space (digit_char d) = false /\
  Ascii.eqb (digit_char d) "_"%char = false /\
  Ascii.eqb (digit_char d) "."%char = false /\
  split_sign (digit_char d :: []) = (false, digit_char d :: []).
Proof.
  intros H.
  assert (C : (d = 0 \/ d = 1 \/ d = 2 \/ d = 3 \/ d = 4 \/ d = 5 \/ d = 6
              \/ d = 7 \/ d = 8 \/ d = 9)%N) by lia.
  repeat destruct C as [C|C]; subst d; repeat split; reflexivity.
Qed.


Lemma str_digits (n : N) : Forall decimal_digit (str n).
Proof.
  induction n as [n IH] using (well_founded_induction N.lt_wf_0).
  destruct (N.lt_ge_cases n 10) as [H|H].
  - rewrite str_small by exact H. constructor; [|constructor]. now exists n.
  - rewrite str_step by exact H. apply Forall_app. split.
    + apply IH. apply N.div_lt; lia.
    + constructor; [|constructor]. exists (n mod 10)%N. split; [|reflexivity].
      apply N.mod_lt. discriminate.
Qed.

Lemma digits_to_N_snoc (l : list ascii) (c : ascii) :
  digits_to_N (l ++ [c]) = (10 * digits_to_N l + digit_val c)%N.
Proof. unfold digits_to_N. now rewrite fold_left_app. Qed.

Lemma digits_to_N_str (n : N) : digits_to_N (str n) = n.
Proof.
  induction n as [n IH] using (well_founded_induction N.lt_wf_0).
  destruct (N.lt_ge_cases n 10) as [H|H].
  - rewrite str_small by exact H.
    unfold digits_to_N. cbn [fold_left].
    destruct (digit_char_facts n H) as (_ & -> & _). lia.
  - rewrite str_step by exact H. rewrite digits_to_N_snoc.
    rewrite IH by (apply N.div_lt; lia).
    assert (Hm : (n mod 10 < 10)%N) by (apply N.mod_lt; discriminate).
    destruct (digit_char_facts _ Hm) as (_ & -> & _).
    pose proof (N.Div0.div_mod n 10). lia.
Qed.

Lemma span_digits_app (ds rest : list ascii) :
  Forall decimal_digit ds ->
  match rest with [] => True | c :: _ => is_digit c = false end ->
  span_digits (ds ++ rest)%list = (ds, rest).
Proof.
  intros Hd Hr. induction Hd as [|c ds [d [Hlt ->]] _ IH]; cbn [app span_digits].
  - destruct rest as [|c r]; [reflexivity|]. cbn [span_digits]. now rewrite Hr.
  - destruct (digit_char_facts d Hlt) as (-> & _). now rewrite IH.
Qed.

Lemma filter_all {A : Type} (f : A -> bool) (l : list A) :
  forallb f l = true -> filter f l = l.
Proof.
  induction l as [|a l IH]; simpl; [reflexivity|].
  intros H. apply andb_true_iff in H. destruct H as [-> H]. now rewrite IH.
Qed.

Lemma strip_id (first last : ascii) (mid : list ascii) :
  is_space first = false -> is_space last = false ->
  strip (first :: mid ++ [last])%list = (first :: mid ++ [last])%list.
Proof.
  intros Hf Hl. unfold strip, rstrip. cbn [lstrip]. rewrite Hf.
  change (first :: mid ++ [last])%list with ((first :: mid) ++ [last])%list.
  rewrite rev_app_distr. cbn [rev app lstrip]. rewrite Hl.
  change (last :: rev mid ++ [first])%list with (rev [last] ++ rev (first :: mid))%list.
  rewrite <- rev_app_distr. apply rev_involutive.
Qed.


Lemma rendered_value (n : N) :
  digits_to_N (str (n / 100) ++ [digit_char ((n / 10) mod 10); digit_char (n mod 10)])
  = n.
Proof.
  change [digit_char ((n / 10) mod 10); digit_char (n mod 10)]
    with ([digit_char ((n / 10) mod 10)] ++ [digit_char (n mod 10)])%list.
  rewrite app_assoc, !digits_to_N_snoc, digits_to_N_str.
  assert (H1 : ((n / 10) mod 10 < 10)%N) by (apply N.mod_lt; discriminate).
  assert (H0 : (n mod 10 < 10)%N) by (apply N.mod_lt; discriminate).
  destruct (digit_char_facts _ H1) as (_ & -> & _).
  destruct (digit_char_facts _ H0) as (_ & -> & _).
  pose proof (N.Div0.div_mod n 10) as D0.
  pose proof (N.Div0.div_mod (n / 10) 10) as D1.
  rewrite N.Div0.div_div in D1. change (10 * 10)%N with 100%N in D1. lia.
Qed.

Lemma of_string_rendered (n : N) :
  Z.of_N n < 10 ^ 28 ->
  of_string (render_cents n) = Some (Finite false n (-2)).
Proof.
  intros Hn. unfold of_string, render_cents.
  rewrite list_ascii_of_string_of_list_ascii. fold (rendered n).
  pose proof (str_digits (n / 100)) as Hd.
  assert (H1 : ((n / 10) mod 10 < 10)%N) by (apply N.mod_lt; discriminate).
  assert (H0 : (n mod 10 < 10)%N) by (apply N.mod_lt; discriminate).
  destruct (digit_char_facts _ H1) as (D1 & _ & S1 & U1 & _).
  destruct (digit_char_facts _ H0) as (D0 & _ & S0 & U0 & _).
  (* the first character is a digit *)
  destruct (str (n / 100)) as [|c0 tl] eqn:Es; [now apply str_nonempty in Es|].
  pose proof Hd as Hd'. inversion Hd' as [|? ? [d [Hlt ->]] Htl]; subst.
  destruct (digit_char_facts d Hlt) as (Dd & _ & Sd & Ud & Pd & Gd).
  (* nothing to strip and no underscore to drop *)
  assert (Hstrip : strip (rendered n) = rendered n).
  { unfold rendered. rewrite Es.
    replace ((digit_char d :: tl) ++ ["."%char; digit_char ((n / 10) mod 10);
                                      digit_char (n mod 10)])%list
      with (digit_char d :: (tl ++ ["."%char; digit_char ((n / 10) mod 10)])
              ++ [digit_char (n mod 10)])%list
      by (cbn [app]; now rewrite <- app_assoc).
    now apply strip_id. }
  rewrite Hstrip.
  assert (Hund : remove_underscores (rendered n) = rendered n).
  { apply filter_all. unfold rendered. rewrite forallb_app. apply andb_true_iff. split.
    - apply forallb_forall. intros c Hc.
      rewrite Forall_forall in Hd. rewrite <- Es in Hd.
      destruct (Hd c Hc) as [d' [Hlt' ->]].
      destruct (digit_char_facts d' Hlt') as (_ & _ & _ & -> & _). reflexivity.
    - cbn [forallb]. rewrite U1, U0. reflexivity. }
  rewrite Hund.
  unfold rendered. rewrite Es. cbn [app].
  assert (Hsign : split_sign (digit_char d :: tl ++ ["."%char; digit_char ((n / 10) mod 10);
                                                     digit_char (n mod 10)])%list
                  = (false, digit_char d :: tl ++ ["."%char; digit_char ((n / 10) mod 10);
                                                   digit_char (n mod 10)])%list).
  { unfold split_sign in *. destruct (digit_char d) as [[] [] [] [] [] [] [] []];
      try reflexivity; discriminate. }
  rewrite Hsign.
  unfold parse_finite. cbn [starts_number]. rewrite Dd. cbn [orb].
  change (digit_char d :: tl ++ ["."%char; digit_char ((n / 10) mod 10);
                                 digit_char (n mod 10)])%list
    with ((digit_char d :: tl) ++ ["."%char; digit_char ((n / 10) mod 10);
                                   digit_char (n mod 10)])%list.
  rewrite span_digits_app by (assumption || reflexivity).
  change [digit_char ((n / 10) mod 10); digit_char (n mod 10)]
    with ([digit_char ((n / 10) mod 10); digit_char (n mod 10)] ++ [])%list.
  rewrite span_digits_app.
  2:{ constructor; [now exists ((n / 10) mod 10)%N|].
      constructor; [now exists (n mod 10)%N|constructor]. }
  2:{ exact I. }
  rewrite <- Es, rendered_value.
  cbn [length Z.of_nat Pos.of_succ_nat Pos.succ Z.sub Z.opp Z.add].
  assert (Hr : (adjusted n (-2) <=? MAX_EMAX) && (MIN_ETINY <=? -2) = true).
  { apply andb_true_iff. split; [|reflexivity]. apply Z.leb_le.
    unfold adjusted, MAX_EMAX.
    assert (ndigits n <= 28) by now apply ndigits_le_iff. lia. }
  rewrite Hr. reflexivity.
Qed.

Lemma parse_rendered (n : N) :
  0 < Z.of_N n < 10 ^ 28 ->
  _parse_amount_to_cents (Some (render_cents n)) = Ok (Z.of_N n).
Proof.
  intros [Hpos Hlt].
  rewrite (parse_finite_cases _ _ _ _ (of_string_rendered n Hlt)).
  assert (Eq : quantum_coeff n (-2) = n).
  { unfold quantum_coeff. change (-2 <=? -2) with true. cbv iota.
    change (10 ^ Z.to_N (-2 + 2))%N with 1%N. apply N.mul_1_r. }
  rewrite Eq.
  apply Z.ltb_lt in Hlt. rewrite Hlt.
  assert (Hz : (n =? 0)%N = false) by (apply N.eqb_neq; lia).
  rewrite Hz. reflexivity.
Qed.

(** ** The amount codec *)

(** X1.  Whatever [_parse_amount_to_cents] returns is a positive number
    of cents with at most 28 digits: no zero, negative or over-long
    amount leaves the parser. *)
Theorem parsed_cents_in_range :
  forall raw cents,
    _parse_amount_to_cents raw = Ok cents -> 0 < cents < 10 ^ 28.
Proof. exact parse_ok_range. Qed.

Lemma parsed_cents_in_range_witness :
  _parse_amount_to_cents (Some "25.00") = Ok 2500 /\ 0 < 2500 < 10 ^ 28.
Proof.
  split; [reflexivity|].
  exact (parsed_cents_in_range (Some "25.00") 2500 eq_refl).
Defined.

(** X2.  An accepted amount is within half a cent of the number that
    was written: the returned cents differ from 100 times the value by at
    most 1/2. *)
Theorem parsed_cents_within_half_cent :
  forall raw s c e cents,
    of_string raw = Some (Finite s c e) ->
    _parse_amount_to_cents (Some raw) = Ok cents ->
    (inject_Z cents - (1 # 2) <= inject_Z 100 * value s c e
     /\ inject_Z 100 * value s c e <= inject_Z cents + (1 # 2))%Q.
Proof.
  intros raw s c e cents H Hp.
  destruct (parse_accepts _ _ _ _ _ H Hp) as (_ & -> & _).
  apply round_half_even_near.
Qed.

Lemma parsed_cents_within_half_cent_witness :
  (inject_Z 1000 - (1 # 2) <= inject_Z 100 * value false 9999 (-3)
   /\ inject_Z 100 * value false 9999 (-3) <= inject_Z 1000 + (1 # 2))%Q.
Proof.
  exact (parsed_cents_within_half_cent "9.999" false 9999%N (-3) 1000 eq_refl eq_refl).
Defined.

(** X3.  Among the strings that the Decimal constructor reads as finite
    numbers, the outcome depends on the number only, not on how it is
    written: two such strings of the same value (as "1.5", "1.50" and
    "15e-1") are both accepted with the same cents or both refused with
    the same error.  (A spelling that the constructor refuses, as one
    whose exponent is below MIN_ETINY, is outside this statement.) *)
Theorem parse_depends_on_value_only :
  forall raw1 s1 c1 e1 raw2 s2 c2 e2,
    of_string raw1 = Some (Finite s1 c1 e1) ->
    of_string raw2 = Some (Finite s2 c2 e2) ->
    (value s1 c1 e1 == value s2 c2 e2)%Q ->
    _parse_amount_to_cents (Some raw1) = _parse_amount_to_cents (Some raw2).
Proof.
  intros raw1 s1 c1 e1 raw2 s2 c2 e2 H1 H2 Hv.
  rewrite (parse_finite_cases _ _ _ _ H1), (parse_finite_cases _ _ _ _ H2).
  pose proof (value_nonneg c1 e1) as P1. pose proof (value_nonneg c2 e2) as P2.
  destruct s1, s2.
  - rewrite !value_opp in Hv.
    assert (Hm : (value false c1 e1 == value false c2 e2)%Q) by lra.
    now rewrite (quantum_coeff_value _ _ _ _ Hm).
  - rewrite value_opp in Hv.
    assert (Z1 : c1 = 0%N) by (apply (value_zero c1 e1); lra).
    assert (Z2 : c2 = 0%N) by (apply (value_zero c2 e2); lra).
    subst. rewrite !quantum_coeff_zero. reflexivity.
  - rewrite value_opp in Hv.
    assert (Z1 : c1 = 0%N) by (apply (value_zero c1 e1); lra).
    assert (Z2 : c2 = 0%N) by (apply (value_zero c2 e2); lra).
    subst. rewrite !quantum_coeff_zero. reflexivity.
  - now rewrite (quantum_coeff_value _ _ _ _ Hv).
Qed.

Lemma parse_depends_on_value_only_witness :
  _parse_amount_to_cents (Some "1.50") = _parse_amount_to_cents (Some "15e-1").
Proof.
  exact (parse_depends_on_value_only "1.50" false 150%N (-2) "15e-1" false 15%N (-1)
           eq_refl eq_refl eq_refl).
Defined.

(** X4.  The parser is monotone: of two accepted amounts, the one that
    denotes the smaller number never gets more cents. *)
Theorem parse_is_monotone :
  forall raw1 s1 c1 e1 cents1 raw2 s2 c2 e2 cents2,
    of_string raw1 = Some (Finite s1 c1 e1) ->
    of_string raw2 = Some (Finite s2 c2 e2) ->
    _parse_amount_to_cents (Some raw1) = Ok cents1 ->
    _parse_amount_to_cents (Some raw2) = Ok cents2 ->
    (value s1 c1 e1 <= value s2 c2 e2)%Q ->
    cents1 <= cents2.
Proof.
  intros raw1 s1 c1 e1 cents1 raw2 s2 c2 e2 cents2 H1 H2 P1 P2 Hv.
  destruct (parse_accepts _ _ _ _ _ H1 P1) as (_ & -> & _).
  destruct (parse_accepts _ _ _ _ _ H2 P2) as (_ & -> & _).
  unfold cents_of. apply round_half_even_mono.
  apply Qmult_le_l; [reflexivity|exact Hv].
Qed.

Lemma parse_is_monotone_witness :
  _parse_amount_to_cents (Some "0.125") = Ok 12 /\
  _parse_amount_to_cents (Some "0.135") = Ok 14 /\ 12 <= 14.
Proof.
  split; [reflexivity|]. split; [reflexivity|].
  refine (parse_is_monotone "0.125" false 125%N (-3) 12 "0.135" false 135%N (-3) 14
            eq_refl eq_refl eq_refl eq_refl _).
  vm_compute. discriminate.
Defined.

(** X5.  Whitespace before and after the amount is ignored: padding a
    string with characters that [str.strip()] removes changes neither
    the cents nor the error. *)
Theorem parse_ignores_surrounding_whitespace :
  forall before after raw,
    forallb is_space (list_ascii_of_string before) = true ->
    forallb is_space (list_ascii_of_string after) = true ->
    _parse_amount_to_cents (Some (before ++ raw ++ after))
    = _parse_amount_to_cents (Some raw).
Proof.
  intros before after raw Hb Ha. apply parse_of_string.
  unfold of_string. rewrite !list_ascii_of_string_app.
  now rewrite strip_spaces.
Qed.

Lemma parse_ignores_surrounding_whitespace_witness :
  _parse_amount_to_cents (Some ("  " ++ "25.00" ++ " "))
  = _parse_amount_to_cents (Some "25.00").
Proof.
  exact (parse_ignores_surrounding_whitespace "  " " " "25.00" eq_refl eq_refl).
Defined.

(** X6.  Reading back what was shown: for every amount of 1 to
    10^28 - 1 cents, the string that [_format_amount_from_cents] produces
    is accepted by [_parse_amount_to_cents] and gives the same cents. *)
Theorem parse_format_round_trip :
  forall cents,
    0 < cents < 10 ^ 28 ->
    bind (_format_amount_from_cents cents)
         (fun shown => _parse_amount_to_cents (Some shown))
    = Ok cents.
Proof.
  intros cents H.
  rewrite <- (Z2N.id cents) by lia.
  rewrite format_amount_cents by (rewrite Z2N.id; lia).
  cbn [bind]. apply parse_rendered. rewrite Z2N.id; lia.
Qed.

Lemma parse_format_round_trip_witness :
  bind (_format_amount_from_cents 1234)
       (fun shown => _parse_amount_to_cents (Some shown))
  = Ok 1234.
Proof.
  apply (parse_format_round_trip 1234). split; reflexivity.
Defined.

(** X7.  Two different amounts below 10^28 cents are never shown as the
    same string. *)
Theorem format_is_injective :
  forall a b,
    0 <= a < 10 ^ 28 -> 0 <= b < 10 ^ 28 ->
    a <> b ->
    _format_amount_from_cents a <> _format_amount_from_cents b.
Proof.
  intros a b Ha Hb Hne.
  rewrite <- (Z2N.id a) at 1 by lia. rewrite <- (Z2N.id b) at 1 by lia.
  rewrite !format_amount_cents by (rewrite Z2N.id; lia).
  intros [= E].
  assert (Ea : of_string (render_cents (Z.to_N a)) = Some (Finite false (Z.to_N a) (-2)))
    by (apply of_string_rendered; rewrite Z2N.id; lia).
  assert (Eb : of_string (render_cents (Z.to_N b)) = Some (Finite false (Z.to_N b) (-2)))
    by (apply of_string_rendered; rewrite Z2N.id; lia).
  rewrite E in Ea. rewrite Ea in Eb. injection Eb as Eb. lia.
Qed.

Lemma format_is_injective_witness :
  _format_amount_from_cents 120 <> _format_amount_from_cents 1200.
Proof.
  apply (format_is_injective 120 1200);
    [split; [discriminate|reflexivity] | split; [discriminate|reflexivity] | discriminate].
Defined.

(** X8.  The status for a card error is "live" or "false", nothing else,
    and the code of the error itself takes precedence: when [error.code]
    is a non-empty string the code of the nested error object is not
    looked at. *)
Theorem status_from_card_error_two_valued :
  (forall error,
     _status_from_card_error error = "live" \/ _status_from_card_error error = "false") /\
  (forall c nested1 nested2 m1 m2,
     c <> "" ->
     _status_from_card_error {| code := Some c; error_code := nested1; user_message := m1 |}
     = _status_from_card_error {| code := Some c; error_code := nested2; user_message := m2 |}).
Proof.
  split.
  - intros error. unfold _status_from_card_error.
    destruct (py_eq _ "incorrect_cvc"); [now left|].
    destruct (py_eq _ "insufficient_funds"); [now left|now right].
  - intros c nested1 nested2 m1 m2 Hc. unfold _status_from_card_error, py_or.
    cbn [code error_code truthy].
    apply String.eqb_neq in Hc. rewrite Hc. reflexivity.
Qed.

Lemma status_from_card_error_two_valued_witness :
  _status_from_card_error
    {| code := Some "card_declined"; error_code := Some "incorrect_cvc";
       user_message := None |}
  = _status_from_card_error
      {| code := Some "card_declined"; error_code := None; user_message := None |}.
Proof.
  apply (proj2 status_from_card_error_two_valued). discriminate.
Defined.

(** X9.  The proxy is configured only from a complete set of settings:
    [stripe.proxy] stays [None] exactly when the host, the port, the user
    name or the password is missing or empty.  The scheme is not checked;
    it does not decide whether a proxy is set. *)
Theorem proxy_needs_all_settings :
  forall config,
    (stripe_proxy config = None <->
     truthy (PROXY_HOST config) = false \/ truthy (PROXY_PORT config) = false \/
     truthy (PROXY_USERNAME config) = false \/ truthy (PROXY_PASSWORD config) = false) /\
    (_build_proxy_url config = "" <-> stripe_proxy config = None).
Proof.
  intros config.
  assert (Hurl : forall a b : string, (a ++ "://" ++ b) <> "").
  { intros a b. destruct a; discriminate. }
  unfold stripe_proxy, _build_proxy_url, py_or.
  destruct (truthy (PROXY_HOST config)), (truthy (PROXY_PORT config)),
    (truthy (PROXY_USERNAME config)), (truthy (PROXY_PASSWORD config));
    cbn [andb truthy negb];
    try (split; split; intros; auto; reflexivity).
  set (url := _ ++ _).
  assert (Hne : url <> "") by apply Hurl.
  destruct (String.eqb_spec url "") as [E|_]; [contradiction|].
  cbn [negb].
  split; split; intros H; try discriminate; try contradiction.
  repeat destruct H as [H|H]; discriminate.
Qed.

Lemma proxy_needs_all_settings_witness :
  stripe_proxy {| STRIPE_SECRET_KEY := Some "sk_test"; PROXY_SCHEME := Some "http";
                  PROXY_HOST := Some "proxy.local"; PROXY_PORT := Some "8080";
                  PROXY_USERNAME := Some "user"; PROXY_PASSWORD := Some "" |}
  = None.
Proof.
  apply (proj1 (proxy_needs_all_settings _)). right. right. right. reflexivity.
Defined.

(** ** The handlers as a whole *)

(** The parser lets [InvalidOperation] through for quiet NaN literals
    and for nothing else. *)
Lemma parse_invalid_operation (raw : option string) :
  _parse_amount_to_cents raw = Raise InvalidOperation <->
  exists text sign diag,
    raw = Some text /\ of_string text = Some (NaN sign false diag).
Proof.
  split.
  - destruct raw as [text|]; [|discriminate].
    pose proof (parse_special_cases text) as Hs.
    destruct (of_string text) as [[s c e|s|s [|] d]|] eqn:E;
      try (rewrite Hs; discriminate).
    + rewrite (parse_finite_cases _ _ _ _ E).
      destruct (_ <? _)%Z; [|discriminate].
      destruct (_ || _); discriminate.
    + intros _. now exists text, s, d.
  - intros (text & s & d & -> & E).
    pose proof (parse_special_cases text) as Hs. now rewrite E in Hs.
Qed.

(** X10.  Every call that [create_payment_intent] makes is the only call
    of the request, is made with a key and a payment method id present,
    and asks to create and confirm, in "usd", a charge of the cents
    parsed from the request, which are positive and below 10^28; an
    email that is missing or empty is passed as [None]. *)
Theorem create_call_is_well_formed :
  forall stripe data call,
    In call (snd (create_payment_intent stripe data)) ->
    snd (create_payment_intent stripe data) = [call] /\
    truthy (api_key stripe) = true /\
    truthy (r_payment_method_id data) = true /\
    exists cents,
      _parse_amount_to_cents (r_amount data) = Ok cents /\
      0 < cents < 10 ^ 28 /\
      call = PaymentIntent_create
               {| p_amount := cents;
                  p_currency := "usd";
                  p_payment_method := r_payment_method_id data;
                  p_receipt_email :=
                    if truthy (r_email data) then r_email data else None;
                  p_confirm := true |}.
Proof.
  intros stripe data call. unfold create_payment_intent.
  destruct (truthy (api_key stripe)); [|intros []].
  destruct (truthy (r_payment_method_id data)); [|intros []].
  cbn [negb].
  destruct (_parse_amount_to_cents (r_amount data)) as [cents|e] eqn:Hp.
  - cbn [snd]. intros [<-|[]].
    repeat split. exists cents.
    split; [reflexivity|]. split; [exact (parse_ok_range _ _ Hp)|reflexivity].
  - destruct e; intros [].
Qed.

Lemma create_call_is_well_formed_witness :
  snd (create_payment_intent
         {| api_key := Some "sk_test"; run := fun _ => RaisesOther "" |}
         {| r_amount := Some "25.00"; r_payment_method_id := Some "pm_test";
            r_email := Some "" |})
  = [PaymentIntent_create
       {| p_amount := 2500; p_currency := "usd"; p_payment_method := Some "pm_test";
          p_receipt_email := None; p_confirm := true |}].
Proof.
  refine (proj1 (create_call_is_well_formed _ _ _ _)).
  left. reflexivity.
Defined.

(** X11.  [confirm_payment_intent] asks the processor exactly when the
    request names a payment intent: without an id (missing or empty) it
    answers 400 "Payment intent id is required." and makes no call; with
    one it makes the confirm call for that id and no other call. *)
Theorem confirm_calls_iff_id :
  forall stripe data,
    (truthy (r_payment_intent_id data) = false ->
     confirm_payment_intent stripe data
     = (Response [("status", JString "false");
                  ("message", JString "Payment intent id is required.")] 400, [])) /\
    (truthy (r_payment_intent_id data) = true ->
     snd (confirm_payment_intent stripe data)
     = [PaymentIntent_confirm (r_payment_intent_id data)]) /\
    (snd (confirm_payment_intent stripe data) = [] <->
     truthy (r_payment_intent_id data) = false).
Proof.
  intros stripe data. unfold confirm_payment_intent.
  destruct (truthy (r_payment_intent_id data)); cbn [negb snd].
  - repeat split; try discriminate; intros; reflexivity.
  - repeat split; try discriminate; intros; reflexivity.
Qed.

Lemma confirm_calls_iff_id_witness :
  confirm_payment_intent
    {| api_key := Some "sk_test"; run := fun _ => RaisesOther "" |}
    {| r_payment_intent_id := Some "" |}
  = (Response [("status", JString "false");
               ("message", JString "Payment intent id is required.")] 400, []) /\
  snd (confirm_payment_intent
         {| api_key := Some "sk_test"; run := fun _ => RaisesOther "" |}
         {| r_payment_intent_id := Some "pi_1" |})
  = [PaymentIntent_confirm (Some "pi_1")].
Proof.
  split.
  - exact (proj1 (confirm_calls_iff_id
                    {| api_key := Some "sk_test"; run := fun _ => RaisesOther "" |}
                    {| r_payment_intent_id := Some "" |}) eq_refl).
  - exact (proj1 (proj2 (confirm_calls_iff_id
                    {| api_key := Some "sk_test"; run := fun _ => RaisesOther "" |}
                    {| r_payment_intent_id := Some "pi_1" |})) eq_refl).
Defined.

(** X12.  For a request whose body is a JSON object in which the amount,
    the payment method id and the email are strings or absent, an
    exception leaves [create_payment_intent] in one situation only: the
    key and the payment method id are present and the amount is a quiet
    NaN literal (in any spelling); the exception is then
    [InvalidOperation].  Every other such request gets a JSON answer. *)
Theorem create_unhandled_iff_nan :
  forall stripe data e,
    fst (create_payment_intent stripe data) = Unhandled e <->
    e = InvalidOperation /\
    truthy (api_key stripe) = true /\
    truthy (r_payment_method_id data) = true /\
    exists text sign diag,
      r_amount data = Some text /\ of_string text = Some (NaN sign false diag).
Proof.
  intros stripe data e. unfold create_payment_intent.
  destruct (truthy (api_key stripe));
    [|cbn [negb fst]; split; [discriminate|intros (_ & H & _); discriminate]].
  destruct (truthy (r_payment_method_id data));
    [|cbn [negb fst]; split; [discriminate|intros (_ & _ & H & _); discriminate]].
  cbn [negb].
  destruct (_parse_amount_to_cents (r_amount data)) as [cents|e'] eqn:Hp.
  - cbn [fst]. split.
    + destruct (run stripe _) as [intent|exc|detail]; try discriminate.
      destruct (String.eqb _ _); [discriminate|].
      destruct (_format_amount_from_cents cents); discriminate.
    + intros (_ & _ & _ & Hn). apply parse_invalid_operation in Hn. congruence.
  - destruct (parse_raises _ _ Hp) as [ -> | [ -> | -> ] ]; cbn [fst].
    + split; [discriminate|].
      intros (_ & _ & _ & Hn). apply parse_invalid_operation in Hn. congruence.
    + split; [discriminate|].
      intros (_ & _ & _ & Hn). apply parse_invalid_operation in Hn. congruence.
    + split.
      * intros [= <-]. repeat split. now apply parse_invalid_operation.
      * intros (-> & _). reflexivity.
Qed.

Lemma create_unhandled_iff_nan_witness :
  fst (create_payment_intent
         {| api_key := Some "sk_test"; run := fun _ => RaisesOther "" |}
         {| r_amount := Some " -nan7 "; r_payment_method_id := Some "pm_test";
            r_email := None |})
  = Unhandled InvalidOperation.
Proof.
  apply (proj2 (create_unhandled_iff_nan _ _ _)).
  repeat split. exists " -nan7 ", true, 7%N. split; reflexivity.
Defined.

(** X13.  A 402 comes from the processor and from nowhere else: when
    either handler answers 402, its call to the processor raised a card
    error, and the body is the classified status with that error's user
    message. *)
Theorem status_402_means_card_error :
  (forall stripe data body,
     fst (create_payment_intent stripe data) = Response body 402 ->
     exists cents exc,
       _parse_amount_to_cents (r_amount data) = Ok cents /\
       run stripe (create_call cents data) = RaisesCardError exc /\
       body = [("status", JString (_status_from_card_error exc));
               ("message", jsonify_field (user_message exc))]) /\
  (forall stripe data body,
     fst (confirm_payment_intent stripe data) = Response body 402 ->
     exists exc,
       run stripe (PaymentIntent_confirm (r_payment_intent_id data)) = RaisesCardError exc /\
       body = [("status", JString (_status_from_card_error exc));
               ("message", jsonify_field (user_message exc))]).
Proof.
  split.
  - intros stripe data body. unfold create_payment_intent.
    destruct (truthy (api_key stripe)); [|discriminate].
    destruct (truthy (r_payment_method_id data)); [|discriminate].
    cbn [negb].
    destruct (_parse_amount_to_cents (r_amount data)) as [cents|e] eqn:Hp.
    + cbn [fst]. fold (create_call cents data).
      destruct (run stripe (create_call cents data)) as [intent|exc|detail] eqn:Hr;
        try discriminate.
      * destruct (String.eqb _ _); [discriminate|].
        destruct (_format_amount_from_cents cents); discriminate.
      * intros [= <-]. now exists cents, exc.
    + destruct e; discriminate.
  - intros stripe data body. unfold confirm_payment_intent.
    destruct (truthy (r_payment_intent_id data)); [|discriminate].
    cbn [negb fst].
    destruct (run stripe _) as [intent|exc|detail] eqn:Hr; try discriminate.
    + destruct (String.eqb _ _); [discriminate|].
      destruct (_format_amount_from_cents _); discriminate.
    + intros [= <-]. now exists exc.
Qed.

Lemma status_402_means_card_error_witness :
  exists exc,
    run {| api_key := None;
           run := fun _ => RaisesCardError
                    {| code := None; error_code := Some "incorrect_cvc";
                       user_message := Some "Your card's security code is incorrect." |} |}
        (PaymentIntent_confirm (Some "pi_1")) = RaisesCardError exc /\
    [("status", JString "live");
     ("message", JString "Your card's security code is incorrect.")]
    = [("status", JString (_status_from_card_error exc));
       ("message", jsonify_field (user_message exc))].
Proof.
  exact (proj2 status_402_means_card_error
           {| api_key := None;
              run := fun _ => RaisesCardError
                       {| code := None; error_code := Some "incorrect_cvc";
                          user_message := Some "Your card's security code is incorrect." |} |}
           {| r_payment_intent_id := Some "pi_1" |}
           [("status", JString "live");
            ("message", JString "Your card's security code is incorrect.")]
           eq_refl).
Defined.

(** X14.  An intent that still requires action is passed on as such:
    both handlers answer 200 with status "requires_action", the intent's
    id and its client secret, and no message or amount. *)
Theorem requires_action_is_passed_on :
  (forall stripe data cents intent,
     truthy (api_key stripe) = true ->
     truthy (r_payment_method_id data) = true ->
     _parse_amount_to_cents (r_amount data) = Ok cents ->
     run stripe (create_call cents data) = Returns intent ->
     status intent = "requires_action" ->
     fst (create_payment_intent stripe data)
     = Response [("status", JString "requires_action");
                 ("payment_intent_id", jsonify_field (id intent));
                 ("client_secret", jsonify_field (client_secret intent))] 200) /\
  (forall stripe data intent,
     truthy (r_payment_intent_id data) = true ->
     run stripe (PaymentIntent_confirm (r_payment_intent_id data)) = Returns intent ->
     status intent = "requires_action" ->
     fst (confirm_payment_intent stripe data)
     = Response [("status", JString "requires_action");
                 ("payment_intent_id", jsonify_field (id intent));
                 ("client_secret", jsonify_field (client_secret intent))] 200).
Proof.
  split.
  - intros stripe data cents intent Hk Hp Ha Hr Hs.
    unfold create_payment_intent. rewrite Hk, Hp, Ha. cbn [negb fst].
    fold (create_call cents data). rewrite Hr, Hs. reflexivity.
  - intros stripe data intent Hi Hr Hs.
    unfold confirm_payment_intent. rewrite Hi. cbn [negb fst].
    rewrite Hr, Hs. reflexivity.
Qed.

Lemma requires_action_is_passed_on_witness :
  fst (confirm_payment_intent
         {| api_key := Some "sk_test";
            run := fun _ => Returns {| status := "requires_action"; id := Some "pi_1";
                                       client_secret := Some "secret_1"; amount := 2500 |} |}
         {| r_payment_intent_id := Some "pi_1" |})
  = Response [("status", JString "requires_action");
              ("payment_intent_id", JString "pi_1");
              ("client_secret", JString "secret_1")] 200.
Proof.
  exact (proj2 requires_action_is_passed_on
           {| api_key := Some "sk_test";
              run := fun _ => Returns {| status := "requires_action"; id := Some "pi_1";
                                         client_secret := Some "secret_1"; amount := 2500 |} |}
           {| r_payment_intent_id := Some "pi_1" |}
           {| status := "requires_action"; id := Some "pi_1";
              client_secret := Some "secret_1"; amount := 2500 |}
           eq_refl eq_refl eq_refl).
Defined.


Lemma status_two_valued (exc : CardError) :
  _status_from_card_error exc = "live" \/ _status_from_card_error exc = "false".
Proof.
  unfold _status_from_card_error.
  destruct (py_eq _ "incorrect_cvc"); [now left|].
  destruct (py_eq _ "insufficient_funds"); [now left|now right].
Qed.

(** X15.  Every JSON answer of [confirm_payment_intent] has a "status"
    field, and its label goes with the HTTP code: "true" or
    "requires_action" with 200, "live" or "false" with 402, and "false"
    with 400 or 500. *)
Theorem confirm_answer_has_status :
  forall stripe data body status_code,
    fst (confirm_payment_intent stripe data) = Response body status_code ->
    exists label,
      field "status" body = Some (JString label) /\
      label_matches_code label status_code.
Proof.
  intros stripe data body status_code.
  unfold confirm_payment_intent, label_matches_code.
  destruct (truthy (r_payment_intent_id data)); cbn [negb fst].
  - destruct (run stripe _) as [intent|exc|detail].
    + destruct (String.eqb _ _).
      * intros [= <- <-]. eexists. split; [reflexivity|]. left. auto.
      * destruct (_format_amount_from_cents _).
        -- intros [= <- <-]. eexists. split; [reflexivity|]. left. auto.
        -- intros [= <- <-]. eexists. split; [reflexivity|]. right. right. auto.
    + intros [= <- <-]. eexists. split; [reflexivity|]. right. left.
      split; [reflexivity|apply status_two_valued].
    + intros [= <- <-]. eexists. split; [reflexivity|]. right. right. auto.
  - intros [= <- <-]. eexists. split; [reflexivity|]. right. right. auto.
Qed.

Lemma confirm_answer_has_status_witness :
  exists label,
    field "status"
      [("status", JString "live");
       ("message", JString "Your card has insufficient funds.")]
    = Some (JString label) /\
    label_matches_code label 402.
Proof.
  exact (confirm_answer_has_status
           {| api_key := None;
              run := fun _ => RaisesCardError
                       {| code := Some "insufficient_funds"; error_code := None;
                          user_message := Some "Your card has insufficient funds." |} |}
           {| r_payment_intent_id := Some "pi_1" |}
           [("status", JString "live");
            ("message", JString "Your card has insufficient funds.")]
           402 eq_refl).
Defined.

(** X16.  Every JSON answer of [create_payment_intent] is of one of two
    kinds.  The two answers given before the amount is looked at, 500
    without a key and 400 without a payment method id, carry an "error"
    field and no "status".  Every other answer has a "status" field whose
    label goes with the code as on the confirm route. *)
Theorem create_answer_has_status_or_error :
  forall stripe data body status_code,
    fst (create_payment_intent stripe data) = Response body status_code ->
    (exists label,
       field "status" body = Some (JString label) /\
       label_matches_code label status_code) \/
    (field "status" body = None /\
     exists text,
       body = [("error", JString text)] /\
       ((status_code = 500 /\ truthy (api_key stripe) = false) \/
        (status_code = 400 /\ truthy (api_key stripe) = true /\
         truthy (r_payment_method_id data) = false))).
Proof.
  intros stripe data body status_code.
  unfold create_payment_intent, label_matches_code.
  destruct (truthy (api_key stripe)); cbn [negb fst].
  2:{ intros [= <- <-]. right. split; [reflexivity|]. eexists. split; [reflexivity|]. auto. }
  destruct (truthy (r_payment_method_id data)); cbn [negb fst].
  2:{ intros [= <- <-]. right. split; [reflexivity|]. eexists. split; [reflexivity|]. auto. }
  destruct (_parse_amount_to_cents (r_amount data)) as [cents|e] eqn:Ha.
  - cbn [fst].
    destruct (run stripe _) as [intent|exc|detail].
    + destruct (String.eqb _ _).
      * intros [= <- <-]. left. eexists. split; [reflexivity|]. left. auto.
      * destruct (_format_amount_from_cents _).
        -- intros [= <- <-]. left. eexists. split; [reflexivity|]. left. auto.
        -- intros [= <- <-]. left. eexists. split; [reflexivity|]. right. right. auto.
    + intros [= <- <-]. left. eexists. split; [reflexivity|]. right. left.
      split; [reflexivity|apply status_two_valued].
    + intros [= <- <-]. left. eexists. split; [reflexivity|]. right. right. auto.
  - destruct e; cbn [fst]; try discriminate.
    intros [= <- <-]. left. eexists. split; [reflexivity|]. right. right. auto.
Qed.

Lemma create_answer_has_status_or_error_witness :
  (exists label,
     field "status" [("error", JString "Payment method is required.")]
     = Some (JString label) /\
     label_matches_code label 400) \/
  (field "status" [("error", JString "Payment method is required.")] = None /\
   exists text,
     [("error", JString "Payment method is required.")] = [("error", JString text)] /\
     ((400 = 500 /\ truthy (Some "sk_test") = false) \/
      (400 = 400 /\ truthy (Some "sk_test") = true /\ truthy None = false))).
Proof.
  exact (create_answer_has_status_or_error
           {| api_key := Some "sk_test"; run := fun _ => RaisesOther "" |}
           {| r_amount := Some "5"; r_payment_method_id := None; r_email := None |}
           [("error", JString "Payment method is required.")] 400 eq_refl).
Defined.
